(** * LinkVault (src/App.jsx): data model, collection handlers, derived view.

    A shallow embedding of the logic of the [App] component of
    [src/App.jsx]: the bookmark record, the event handlers that change the
    collection ([handleSave], [handleDelete], [toggleFavorite],
    [importData]), the metadata lookup [fetchMetadata] and the memoised
    view [filteredBookmarks].

    Conventions of the embedding:
    - a JavaScript string is a [string]: a sequence of 8-bit code units
      (the Latin-1 range of the code units of a JavaScript string);
    - [Date.now()] readings, [confirm] answers, the reply of the lookup
      service and the browser built-ins [JSON.parse], [new URL(..).hostname]
      and [String.prototype.localeCompare] are inputs of the handlers;
    - an exception that leaves a handler is the result [Throw];
    - arrays live in a heap only where a handler updates one in place
      (the [sort] of [filteredBookmarks]); bookmark objects are never
      assigned to anywhere in the source (every change builds a new object
      with a spread), so they are plain values. *)

From Stdlib Require Import ZArith Lia Permutation Sorted.
From Stdlib Require Ascii String DecimalString DecimalPos DecimalZ.
From stdpp Require Import base list strings gmap.

Local Open Scope Z_scope.

(** ** JavaScript strings *)

Module JsString.

Import Stdlib.Strings.Ascii.

Definition empty : string := EmptyString.

(** Truthiness of a string value: only the empty string is falsy. *)
Definition truthy (s : string) : bool :=
  match s with
  | EmptyString => false
  | String _ _ => true
  end.

(** [a || b] on strings. *)
Definition or_else (a b : string) : string := if truthy a then a else b.

Definition is_upper (c : ascii) : bool :=
  let n := nat_of_ascii c in
  (Nat.leb 65 n && Nat.leb n 90)
  || (Nat.leb 192 n && Nat.leb n 222 && negb (Nat.eqb n 215)).

Definition lower_char (c : ascii) : ascii :=
  if is_upper c then ascii_of_nat (nat_of_ascii c + 32) else c.

(** [s.toLowerCase()] *)
Fixpoint toLowerCase (s : string) : string :=
  match s with
  | EmptyString => EmptyString
  | String c s' => String (lower_char c) (toLowerCase s')
  end.

(** White space and line terminators, as [trim] strips them. *)
Definition is_space (c : ascii) : bool :=
  let n := nat_of_ascii c in
  (Nat.leb 9 n && Nat.leb n 13) || Nat.eqb n 32 || Nat.eqb n 160.

Fixpoint trimStart (s : string) : string :=
  match s with
  | EmptyString => EmptyString
  | String c s' => if is_space c then trimStart s' else s
  end.

Definition trimEnd (s : string) : string :=
  String.rev (trimStart (String.rev s)).

(** [s.trim()] *)
Definition trim (s : string) : string := trimEnd (trimStart s).

(** [s.startsWith(q)] *)
Fixpoint startsWith (s q : string) {struct q} : bool :=
  match q, s with
  | EmptyString, _ => true
  | String _ _, EmptyString => false
  | String a q', String b s' => Stdlib.Strings.Ascii.eqb a b && startsWith s' q'
  end.

(** [s.includes(q)] *)
Fixpoint includes (s q : string) : bool :=
  startsWith s q
  || match s with
     | EmptyString => false
     | String _ s' => includes s' q
     end.

Definition comma : ascii := ascii_of_nat 44.

(** [s.split(sep)] for a separator of one code unit. *)
Fixpoint split (sep : ascii) (s : string) : list string :=
  match s with
  | EmptyString => [EmptyString]
  | String c s' =>
      if Stdlib.Strings.Ascii.eqb c sep then EmptyString :: split sep s'
      else match split sep s' with
           | [] => [String c EmptyString]
           | w :: ws => String c w :: ws
           end
  end.

(** [xs.join(sep)] *)
Fixpoint join (sep : string) (xs : list string) : string :=
  match xs with
  | [] => EmptyString
  | [x] => x
  | x :: rest => x +:+ sep +:+ join sep rest
  end.

(** [n.toString()] for an integer [n]. *)
Definition of_Z (n : Z) : string :=
  Stdlib.Numbers.DecimalString.NilZero.string_of_int (Z.to_int n).

(** [s] occurs in [t] as a contiguous block. *)
Definition substring_of (q s : string) : Prop :=
  ∃ pre post, s = pre +:+ q +:+ post.

End JsString.

(** ** Data model *)

(** A stored bookmark object.  [description], [notes], [image] and
    [favicon] may be absent ([undefined] or [null]). *)
Record Bookmark := mkBookmark {
  id : string;
  createdAt : Z;
  url : string;
  title : string;
  description : option string;
  category : string;
  tags : list string;
  notes : option string;
  image : option string;
  favicon : option string;
  isFavorite : bool
}.

(** The draft held by the add/edit form ([formData]); [tags] is the
    comma-separated text of the input field. *)
Module Form.
Record FormData := mk {
  url : string;
  title : string;
  description : string;
  category : string;
  tags : string;
  notes : string;
  image : option string;
  favicon : option string
}.

Definition blank : FormData :=
  mk EmptyString EmptyString EmptyString "Uncategorized" EmptyString EmptyString None None.
End Form.

(** What a handler shows to the outside besides the React state: an
    [alert], a [console.error], a request to the lookup service for a
    target address. *)
Inductive Event :=
| Alert (msg : string)
| ConsoleError (msg : string)
| Lookup (target : string).

(** The state of the [App] component; [R] is the type of the elements of
    the [bookmarks] array ([Bookmark] for the typed handlers, a raw JSON
    value where [importData] stores what [JSON.parse] returned). *)
Record AppState (R : Type) := mkApp {
  bookmarks : list R;
  isModalOpen : bool;
  editingId : option string;
  isCategoryDropdownOpen : bool;
  formData : Form.FormData;
  isFetchingMeta : bool;
  fetchError : string;
  urlError : string;
  log : list Event
}.
Arguments mkApp {R}.
Arguments bookmarks {R}.
Arguments isModalOpen {R}.
Arguments editingId {R}.
Arguments isCategoryDropdownOpen {R}.
Arguments formData {R}.
Arguments isFetchingMeta {R}.
Arguments fetchError {R}.
Arguments urlError {R}.
Arguments log {R}.

Section Setters.
Context {R : Type}.
Implicit Type st : AppState R.

Definition setBookmarks {R' : Type} (v : list R') st : AppState R' :=
  mkApp v (isModalOpen st) (editingId st) (isCategoryDropdownOpen st)
    (formData st) (isFetchingMeta st) (fetchError st) (urlError st) (log st).
Definition setIsModalOpen (v : bool) st : AppState R :=
  mkApp (bookmarks st) v (editingId st) (isCategoryDropdownOpen st)
    (formData st) (isFetchingMeta st) (fetchError st) (urlError st) (log st).
Definition setEditingId (v : option string) st : AppState R :=
  mkApp (bookmarks st) (isModalOpen st) v (isCategoryDropdownOpen st)
    (formData st) (isFetchingMeta st) (fetchError st) (urlError st) (log st).
Definition setIsCategoryDropdownOpen (v : bool) st : AppState R :=
  mkApp (bookmarks st) (isModalOpen st) (editingId st) v
    (formData st) (isFetchingMeta st) (fetchError st) (urlError st) (log st).
Definition setFormData (v : Form.FormData) st : AppState R :=
  mkApp (bookmarks st) (isModalOpen st) (editingId st) (isCategoryDropdownOpen st)
    v (isFetchingMeta st) (fetchError st) (urlError st) (log st).
Definition setIsFetchingMeta (v : bool) st : AppState R :=
  mkApp (bookmarks st) (isModalOpen st) (editingId st) (isCategoryDropdownOpen st)
    (formData st) v (fetchError st) (urlError st) (log st).
Definition setFetchError (v : string) st : AppState R :=
  mkApp (bookmarks st) (isModalOpen st) (editingId st) (isCategoryDropdownOpen st)
    (formData st) (isFetchingMeta st) v (urlError st) (log st).
Definition setUrlError (v : string) st : AppState R :=
  mkApp (bookmarks st) (isModalOpen st) (editingId st) (isCategoryDropdownOpen st)
    (formData st) (isFetchingMeta st) (fetchError st) v (log st).
Definition emit (e : Event) st : AppState R :=
  mkApp (bookmarks st) (isModalOpen st) (editingId st) (isCategoryDropdownOpen st)
    (formData st) (isFetchingMeta st) (fetchError st) (urlError st) (log st ++ [e]).
End Setters.

(** The state the component starts from, for a stored collection [bs]. *)
Definition initialState {R : Type} (bs : list R) : AppState R :=
  mkApp bs false None false Form.blank false EmptyString EmptyString [].

(** The outcome of running a handler. *)
Inductive result (A : Type) :=
| Return (a : A)
| Throw (error : string).
Arguments Return {A}.
Arguments Throw {A}.

(** ** The form session and the collection handlers *)

(** [b.id === editingId], where [editingId] is [null] or a string. *)
Definition id_is (editingId : option string) (b : Bookmark) : bool :=
  match editingId with
  | Some e => String.eqb (id b) e
  | None => false
  end.

(** Truthiness of [editingId]: [null] and the empty string are falsy. *)
Definition truthy_id (editingId : option string) : option string :=
  match editingId with
  | Some e => if JsString.truthy e then Some e else None
  | None => None
  end.

(** [x || null] and [x || ''] for an optional string. *)
Definition or_null (x : option string) : option string :=
  match x with
  | Some s => if JsString.truthy s then Some s else None
  | None => None
  end.

Definition or_empty (x : option string) : string :=
  match x with
  | Some s => s
  | None => EmptyString
  end.

Definition closeModal {R : Type} (st : AppState R) : AppState R :=
  setUrlError EmptyString (setFetchError EmptyString (setIsModalOpen false st)).

Definition openModal {R : Type} (bookmark : option Bookmark) (st : AppState R) : AppState R :=
  let st := setIsCategoryDropdownOpen false
              (setFetchError EmptyString (setUrlError EmptyString st)) in
  let st :=
    match bookmark with
    | Some b =>
        setFormData
          (Form.mk (url b) (title b) (or_empty (description b))
             (JsString.or_else (category b) "Uncategorized")
             (JsString.join ", " (tags b)) (or_empty (notes b))
             (or_null (image b)) (or_null (favicon b)))
          (setEditingId (Some (id b)) st)
    | None => setFormData Form.blank (setEditingId None st)
    end in
  setIsModalOpen true st.

(** [formData.tags.split(',').map(t => t.trim()).filter(Boolean)] *)
Definition tagsArray (text : string) : list string :=
  List.filter JsString.truthy (map JsString.trim (JsString.split JsString.comma text)).

(** The duplicate test of [handleSave] and [fetchMetadata]:
    [b.url === url && b.id !== editingId]. *)
Definition is_duplicate (u : string) (editingId : option string) (b : Bookmark) : bool :=
  String.eqb (url b) u && negb (id_is editingId b).

(** The object literal of [handleSave]: [id], [createdAt], the spread of
    the draft, [tags] overridden by the parsed list, [isFavorite]. *)
Definition newBookmark (i : string) (at_ : Z) (fd : Form.FormData) (fav : bool) : Bookmark :=
  {| id := i;
     createdAt := at_;
     url := Form.url fd;
     title := Form.title fd;
     description := Some (Form.description fd);
     category := Form.category fd;
     tags := tagsArray (Form.tags fd);
     notes := Some (Form.notes fd);
     image := Form.image fd;
     favicon := Form.favicon fd;
     isFavorite := fav |}.

(** [handleSave]; [now_id] and [now_createdAt] are what the two calls of
    [Date.now()] return when the handler creates a bookmark. *)
Definition handleSave (now_id now_createdAt : Z) (st : AppState Bookmark)
  : result (AppState Bookmark) :=
  let fd := formData st in
  if negb (JsString.truthy (Form.url fd)) then Return st
  else
    match List.find (is_duplicate (Form.url fd) (editingId st)) (bookmarks st) with
    | Some _ => Return (setUrlError "This URL is already saved." st)
    | None =>
        match truthy_id (editingId st) with
        | Some e =>
            match List.find (id_is (Some e)) (bookmarks st) with
            | None => Throw "TypeError"
            | Some old =>
                let nb := newBookmark e (createdAt old) fd (isFavorite old) in
                Return (closeModal
                          (setBookmarks
                             (map (λ b, if id_is (Some e) b then nb else b) (bookmarks st))
                             st))
            end
        | None =>
            let nb := newBookmark (JsString.of_Z now_id) now_createdAt fd false in
            Return (closeModal (setBookmarks (nb :: bookmarks st) st))
        end
    end.

(** [handleDelete]; [confirmed] is the answer of the [confirm] dialog. *)
Definition handleDelete (i : string) (confirmed : bool) (st : AppState Bookmark)
  : AppState Bookmark :=
  if confirmed
  then setBookmarks (List.filter (λ b, negb (String.eqb (id b) i)) (bookmarks st)) st
  else st.

Definition toggleFavorite (i : string) (st : AppState Bookmark) : AppState Bookmark :=
  setBookmarks
    (map (λ b, if String.eqb (id b) i
               then mkBookmark (id b) (createdAt b) (url b) (title b) (description b)
                      (category b) (tags b) (notes b) (image b) (favicon b)
                      (negb (isFavorite b))
               else b)
       (bookmarks st))
    st.

(** ** Metadata lookup *)

(** [/^https?:\/\//i.test(url)] *)
Definition has_scheme (u : string) : bool :=
  let l := JsString.toLowerCase u in
  JsString.startsWith l "http://" || JsString.startsWith l "https://".

(** The [validUrl] of [fetchMetadata]. *)
Definition validUrl (u : string) : string :=
  if has_scheme u then u else "https://" +:+ u.

Definition faviconFor (valid : string) : string :=
  "https://www.google.com/s2/favicons?domain=" +:+ valid +:+ "&sz=64".

(** The [data.data] object of a reply of the lookup service, with the
    nested [image.url] and [logo.url] flattened. *)
Record MicrolinkData := mkMicrolink {
  ml_title : option string;
  ml_description : option string;
  ml_image_url : option string;
  ml_logo_url : option string
}.

(** What awaiting [fetch(..)] and [response.json()] gives: a rejection, or
    a body with its [status] and (possibly missing) [data]. *)
Inductive LookupReply :=
| Rejected
| Body (status : string) (data : option MicrolinkData).

Section Enrichment.

(** [new URL(u).hostname]; [None] when the constructor throws. *)
Variable hostname : string → option string.

(** The [catch] block of [fetchMetadata]. *)
Definition lookupFailed (valid : string) (st : AppState Bookmark) : AppState Bookmark :=
  let st := emit (ConsoleError "Metadata fetch failed") st in
  match hostname valid with
  | Some h =>
      let prev := formData st in
      setFormData
        (Form.mk valid (JsString.or_else (Form.title prev) h)
           (Form.description prev) (Form.category prev) (Form.tags prev)
           (Form.notes prev) (Form.image prev) (Some (faviconFor valid)))
        st
  | None => setFetchError "Invalid URL format" st
  end.

(** The state update of the success branch; its title falls back to the
    host name, whose computation may throw inside the updater. *)
Definition lookupSucceeded (valid : string) (d : MicrolinkData) (st : AppState Bookmark)
  : result (AppState Bookmark) :=
  let prev := formData st in
  let known := JsString.or_else (or_empty (ml_title d)) (Form.title prev) in
  let rest t :=
    setFormData
      (Form.mk valid t
         (JsString.or_else (or_empty (ml_description d)) (Form.description prev))
         (Form.category prev) (Form.tags prev) (Form.notes prev)
         (or_null (ml_image_url d))
         (Some (JsString.or_else (or_empty (ml_logo_url d)) (faviconFor valid))))
      st in
  if JsString.truthy known then Return (rest known)
  else match hostname valid with
       | Some h => Return (rest h)
       | None => Throw "TypeError"
       end.

(** [fetchMetadata(url)], given the reply the lookup service sends. *)
Definition fetchMetadata (u : string) (reply : LookupReply) (st : AppState Bookmark)
  : result (AppState Bookmark) :=
  if negb (JsString.truthy u) then Return st
  else
    let st := setUrlError EmptyString
                (setFetchError EmptyString (setIsFetchingMeta true st)) in
    match List.find (is_duplicate u (editingId st)) (bookmarks st) with
    | Some _ =>
        Return (setIsFetchingMeta false (setUrlError "This URL is already saved." st))
    | None =>
        let valid := validUrl u in
        let st := emit (Lookup valid) st in
        match reply with
        | Body status (Some d) =>
            if String.eqb status "success"
            then match lookupSucceeded valid d st with
                 | Return st' => Return (setIsFetchingMeta false st')
                 | Throw e => Throw e
                 end
            else Return (setIsFetchingMeta false (lookupFailed valid st))
        | Body status None =>
            Return (setIsFetchingMeta false (lookupFailed valid st))
        | Rejected =>
            Return (setIsFetchingMeta false (lookupFailed valid st))
        end
    end.

(** The [onBlur] handler of the URL field. *)
Definition onBlurUrl (reply : LookupReply) (st : AppState Bookmark)
  : result (AppState Bookmark) :=
  match truthy_id (editingId st) with
  | Some _ => Return st
  | None => fetchMetadata (Form.url (formData st)) reply st
  end.

End Enrichment.

(** ** Import *)

(** Values of [JSON.parse] (numbers restricted to integers). *)
#[local] Unset Elimination Schemes.
Inductive json :=
| JNull
| JBool (b : bool)
| JNumber (n : Z)
| JString (s : string)
| JArray (items : list json)
| JObject (fields : list (string * json)).
#[local] Set Elimination Schemes.

Definition Array_isArray (j : json) : bool :=
  match j with
  | JArray _ => true
  | _ => false
  end.

Section ImportFile.

(** [JSON.parse]; [None] when it throws a [SyntaxError]. *)
Variable JSON_parse : string → option json.

(** The [onload] callback of [importData], for the text of the file. *)
Definition importData (text : string) (st : AppState json) : AppState json :=
  match JSON_parse text with
  | Some parsed =>
      match parsed with
      | JArray items => emit (Alert "Import successful!") (setBookmarks items st)
      | _ => emit (Alert "Invalid file format.") st
      end
  | None => emit (Alert "Error parsing JSON.") st
  end.

End ImportFile.

(** The shape test the specification asks of an import (section 4.3:
    every element an object in which at least [url] and [id] resolve);
    written from the specification's words, the source has no such test. *)
Definition spec_minimal_shape (j : json) : bool :=
  match j with
  | JObject fields =>
      existsb (λ kv, String.eqb (fst kv) "url") fields
      && existsb (λ kv, String.eqb (fst kv) "id") fields
  | _ => false
  end.

(** ** Arrays in the heap *)

(** [filteredBookmarks] copies the [bookmarks] array and sorts the copy in
    place, so arrays are heap cells here: a reference is a [positive] and
    a computation threads the heap, failing on a dangling reference. *)
Abbreviation ref := positive (only parsing).

Definition M (A : Type) : Type := gmap positive (list Bookmark) → option (A * gmap positive (list Bookmark)).

#[global] Instance M_ret : MRet M := λ A a h, Some (a, h).

#[global] Instance M_bind : MBind M :=
  λ A B f m h, match m h with
               | Some (a, h') => f a h'
               | None => None
               end.

(** A new array. *)
Definition alloc (xs : list Bookmark) : M ref :=
  λ h, let r := fresh (dom h) in Some (r, <[r:=xs]> h).

Definition read (r : ref) : M (list Bookmark) :=
  λ h, match h !! r with
       | Some xs => Some (xs, h)
       | None => None
       end.

(** Overwrite the elements of an existing array. *)
Definition write (r : ref) (xs : list Bookmark) : M unit :=
  λ h, match h !! r with
       | Some _ => Some (tt, <[r:=xs]> h)
       | None => None
       end.

(** A stable sort by a comparator [cmp a b] (negative: [a] first;
    positive: [b] first; zero: keep the order), as [Array.prototype.sort]
    is for a consistent comparator: insertion from the right, an element
    moving past exactly those it must follow. *)
Fixpoint insert_by {A : Type} (cmp : A → A → Z) (x : A) (l : list A) : list A :=
  match l with
  | [] => [x]
  | y :: l' => if 0 <? cmp x y then y :: insert_by cmp x l' else x :: l
  end.

Definition sort_by {A : Type} (cmp : A → A → Z) (l : list A) : list A :=
  foldr (insert_by cmp) [] l.

(** Insertion from the left end: [x] moves past every element that may
    come before it.  It describes how the sorted list changes when the
    input is extended at its end. *)
Fixpoint insert_last_by {A : Type} (cmp : A → A → Z) (x : A) (l : list A) : list A :=
  match l with
  | [] => [x]
  | y :: l' => if cmp y x <=? 0 then y :: insert_last_by cmp x l' else x :: l
  end.

(** [[...a]] *)
Definition Array_spread (a : ref) : M ref :=
  xs ← read a; alloc xs.

(** [a.filter(p)]: a new array. *)
Definition Array_filter (p : Bookmark → bool) (a : ref) : M ref :=
  xs ← read a; alloc (List.filter p xs).

(** [a.sort(cmp)]: sorts [a] itself and returns it. *)
Definition Array_sort (cmp : Bookmark → Bookmark → Z) (a : ref) : M ref :=
  xs ← read a; _ ← write a (sort_by cmp xs); mret a.

(** ** The derived view *)

(** The predicate of the search filter, for the lowercased query [q]. *)
Definition matches (q : string) (b : Bookmark) : bool :=
  JsString.includes (JsString.toLowerCase (title b)) q
  || JsString.includes (JsString.toLowerCase (url b)) q
  || existsb (λ t, JsString.includes (JsString.toLowerCase t) q) (tags b)
  || match description b with
     | Some d => JsString.truthy d && JsString.includes (JsString.toLowerCase d) q
     | None => false
     end.

Section View.

(** [a.localeCompare(b)] *)
Variable localeCompare : string → string → Z.

(** The comparator handed to [sort]. *)
Definition comparator (sortOption : string) (a b : Bookmark) : Z :=
  if String.eqb sortOption "date-desc" then createdAt b - createdAt a
  else if String.eqb sortOption "date-asc" then createdAt a - createdAt b
  else if String.eqb sortOption "alpha" then localeCompare (title a) (title b)
  else 0.

(** The body of the [useMemo] of [filteredBookmarks]; [bookmarks] is the
    reference held by the state. *)
Definition filteredBookmarks (bookmarks : ref)
    (activeCategory searchQuery sortOption : string) : M ref :=
  result ← Array_spread bookmarks;
  result ← (if String.eqb activeCategory "Favorites"
            then Array_filter isFavorite result
            else if negb (String.eqb activeCategory "All")
            then Array_filter (λ b, String.eqb (category b) activeCategory) result
            else mret result);
  result ← (if JsString.truthy (JsString.trim searchQuery)
            then let q := JsString.toLowerCase searchQuery in
                 Array_filter (matches q) result
            else mret result);
  _ ← Array_sort (comparator sortOption) result;
  mret result.

(** The three stages on list values. *)
Definition categoryFilter (activeCategory : string) (l : list Bookmark) : list Bookmark :=
  if String.eqb activeCategory "Favorites" then List.filter isFavorite l
  else if negb (String.eqb activeCategory "All")
  then List.filter (λ b, String.eqb (category b) activeCategory) l
  else l.

Definition searchFilter (searchQuery : string) (l : list Bookmark) : list Bookmark :=
  if JsString.truthy (JsString.trim searchQuery)
  then List.filter (matches (JsString.toLowerCase searchQuery)) l
  else l.

Definition view (l : list Bookmark) (activeCategory searchQuery sortOption : string)
  : list Bookmark :=
  sort_by (comparator sortOption) (searchFilter searchQuery (categoryFilter activeCategory l)).

End View.

(** ** Sequences of collection operations *)

(** One use of the collection through the interface: a save of the form
    ([editing = None]: add; [Some i]: update of [i]) with the draft it
    holds and the clock readings [handleSave] would take (it takes none
    when it updates), or a delete with the answer to its confirmation. *)
Inductive Op :=
| Save (editing : option string) (draft : Form.FormData) (now_id now_createdAt : Z)
| Delete (i : string) (confirmed : bool).

(** The form session as [handleSave] finds it. *)
Definition withDraft (editing : option string) (draft : Form.FormData)
    (st : AppState Bookmark) : AppState Bookmark :=
  setFormData draft (setEditingId editing st).

(** A handler that throws has set no state before it does. *)
Definition exec (op : Op) (st : AppState Bookmark) : AppState Bookmark :=
  match op with
  | Save e d t1 t2 =>
      match handleSave t1 t2 (withDraft e d st) with
      | Return st' => st'
      | Throw _ => withDraft e d st
      end
  | Delete i c => handleDelete i c st
  end.

Definition run (ops : list Op) (st : AppState Bookmark) : AppState Bookmark :=
  fold_left (λ s op, exec op s) ops st.

(** The collection invariants of the data model. *)
Definition unique_ids (bs : list Bookmark) : Prop := List.NoDup (map id bs).
Definition unique_urls (bs : list Bookmark) : Prop := List.NoDup (map url bs).

(** An add takes as id a clock reading not yet used as an id; an update
    names a non-empty id. *)
Definition admissible (op : Op) (bs : list Bookmark) : Prop :=
  match op with
  | Save None _ t1 _ => ¬ In (JsString.of_Z t1) (map id bs)
  | Save (Some i) _ _ _ => i ≠ EmptyString
  | Delete _ _ => True
  end.

Fixpoint admissible_run (ops : list Op) (st : AppState Bookmark) : Prop :=
  match ops with
  | [] => True
  | op :: rest => admissible op (bookmarks st) ∧ admissible_run rest (exec op st)
  end.

(** ** Statement vocabulary *)

(** A record is hit by the lowercased query [q]: [q] occurs in the
    lowercased title, or url, or some tag, or the description when there
    is one. *)
Definition hit (q : string) (b : Bookmark) : Prop :=
  JsString.substring_of q (JsString.toLowerCase (title b))
  ∨ JsString.substring_of q (JsString.toLowerCase (url b))
  ∨ (∃ t, In t (tags b) ∧ JsString.substring_of q (JsString.toLowerCase t))
  ∨ (∃ d, description b = Some d ∧ JsString.substring_of q (JsString.toLowerCase d)).

(** The outcome of [handleSave] that reports a duplicate URL: the field
    error is set and nothing else changes. *)
Definition rejects_DuplicateURL (st : AppState Bookmark) (r : result (AppState Bookmark)) : Prop :=
  r = Return (setUrlError "This URL is already saved." st).

(** The outcome of [handleSave] that commits the collection [bs]: the
    modal closes with its errors cleared. *)
Definition commits (st : AppState Bookmark) (bs : list Bookmark)
    (r : result (AppState Bookmark)) : Prop :=
  r = Return (closeModal (setBookmarks bs st)).

(** The replacement [handleSave] maps over the collection when it
    updates [i] with the record [nb]. *)
Definition replaceById (i : string) (nb : Bookmark) (bs : list Bookmark) : list Bookmark :=
  map (λ b, if id_is (Some i) b then nb else b) bs.

(** An add, as the draft and the two clock readings of its save. *)
Definition Addition : Type := Form.FormData * Z * Z.

Definition addOp (a : Addition) : Op :=
  let '(d, t1, t2) := a in Save None d t1 t2.

(** The record an accepted add creates. *)
Definition added (a : Addition) : Bookmark :=
  let '(d, t1, t2) := a in newBookmark (JsString.of_Z t1) t2 d false.

Definition addedUrl (a : Addition) : string :=
  let '(d, _, _) := a in Form.url d.

(** A sort option the comparator does not know. *)
Definition unrecognized (sortOption : string) : Prop :=
  sortOption ≠ "date-desc" ∧ sortOption ≠ "date-asc" ∧ sortOption ≠ "alpha".

(** During a computation started in heap [h], the array [r] of the
    current heap [h'] is private to it: it did not exist in [h], it holds
    [ys], and every array of [h] is in [h'] with the elements it had. *)
Definition private (h h' : gmap positive (list Bookmark)) (r : ref) (ys : list Bookmark) : Prop :=
  h ⊆ h' ∧ h !! r = None ∧ h' !! r = Some ys.

(** A URL that has an [http://] or [https://] prefix, in any case of its
    letters. *)
Definition scheme_prefixed (u : string) : Prop :=
  (∃ rest, JsString.toLowerCase u = "http://" +:+ rest)
  ∨ (∃ rest, JsString.toLowerCase u = "https://" +:+ rest).

(** The replies after which [fetchMetadata] runs its [catch] block: a
    rejected request, a body without [data], a status other than
    [success]. *)
Definition lookupFails (reply : LookupReply) : Prop :=
  match reply with
  | Rejected => True
  | Body _ None => True
  | Body status (Some _) => status ≠ "success"
  end.

(** A few entries of the graph of [JSON.parse], for concrete runs. *)
Definition quote : string := String (Ascii.ascii_of_nat 34) EmptyString.

Definition sampleParse (text : string) : option json :=
  if String.eqb text "[]" then Some (JArray [])
  else if String.eqb text "[1]" then Some (JArray [JNumber 1])
  else if String.eqb text "[{}]" then Some (JArray [JObject []])
  else if String.eqb text "42" then Some (JNumber 42)
  else if String.eqb text ("{" +:+ quote +:+ "a" +:+ quote +:+ ":1}")
  then Some (JObject [("a", JNumber 1)])
  else None.

(** A stand-in for [new URL(v).hostname] on simple addresses, for concrete
    runs: the text between the scheme and the first slash, refused when
    empty or holding a space. *)
Definition sampleHostname (v : string) : option string :=
  let l := JsString.toLowerCase v in
  let rest := if JsString.startsWith l "https://" then String.substring 8 (String.length l) l
              else if JsString.startsWith l "http://" then String.substring 7 (String.length l) l
              else EmptyString in
  match JsString.split (Ascii.ascii_of_nat 47) rest with
  | host :: _ =>
      if JsString.truthy host && negb (JsString.includes host " ") then Some host else None
  | [] => None
  end.

(** Sample records and a sample draft for concrete runs. *)
Definition sampleRecord (i u : string) (t : Z) : Bookmark :=
  {| id := i; createdAt := t; url := u; title := u;
     description := None; category := "Uncategorized"; tags := []; notes := None;
     image := None; favicon := None; isFavorite := false |}.

Definition sampleBookmark : Bookmark :=
  {| id := "1"; createdAt := 100; url := "https://a.com"; title := "A";
     description := None; category := "Dev"; tags := ["devtools"]; notes := None;
     image := None; favicon := None; isFavorite := false |}.

Definition sampleDraft (u t : string) : Form.FormData :=
  Form.mk u t EmptyString "Uncategorized" EmptyString EmptyString None None.

(** ** Further parts of the component *)

(** The keys of [CATEGORY_ICONS], in the order of the object literal. *)
Definition CATEGORY_ICONS_keys : list string :=
  ["Work"; "Personal"; "Dev"; "Design"; "News"; "Entertainment"; "Learning";
   "Social"; "Uncategorized"].

(** [cats.add(c)] on a [Set] of strings, kept as the list of its elements
    in insertion order. *)
Definition Set_add (c : string) (cats : list string) : list string :=
  if existsb (String.eqb c) cats then cats else cats ++ [c].

(** [new Set(xs)] *)
Definition Set_of (xs : list string) : list string :=
  fold_left (λ cats c, Set_add c cats) xs [].

(** The order [sort()] uses without a comparator: strings by their code
    units. *)
Definition defaultCompare (a b : string) : Z :=
  match String.compare a b with
  | Lt => -1
  | Eq => 0
  | Gt => 1
  end.

(** The [useMemo] of [categories]. *)
Definition categories (bookmarks : list Bookmark) : list string :=
  let cats := Set_of (map category bookmarks) in
  let cats := fold_left (λ cats c, Set_add c cats) CATEGORY_ICONS_keys cats in
  "All" :: "Favorites" :: sort_by defaultCompare cats.

(** The [disabled] attribute of the save button. *)
Definition saveDisabled {R : Type} (st : AppState R) : bool :=
  negb (JsString.truthy (Form.url (formData st)))
  || isFetchingMeta st
  || JsString.truthy (urlError st).

(** The [onChange] handler of the URL field. *)
Definition onChangeUrl {R : Type} (v : string) (st : AppState R) : AppState R :=
  let fd := formData st in
  setUrlError EmptyString
    (setFormData
       (Form.mk v (Form.title fd) (Form.description fd) (Form.category fd)
          (Form.tags fd) (Form.notes fd) (Form.image fd) (Form.favicon fd))
       st).

(** The code units of a string. *)
Definition chars (s : string) : list Ascii.ascii := String.list_ascii_of_string s.

(** The leading white space dropped, on code units. *)
Fixpoint strip (l : list Ascii.ascii) : list Ascii.ascii :=
  match l with
  | [] => []
  | c :: l' => if JsString.is_space c then strip l' else l
  end.

(** A tag as a save stores it: not empty, nothing for [trim] to strip,
    no comma. *)
Definition clean_tag (t : string) : Prop :=
  t ≠ EmptyString ∧ JsString.trim t = t ∧ ¬ In JsString.comma (chars t).

(** A record with the shape a save gives one: the optional texts present,
    a category, clean tags, no empty asset address. *)
Definition saved_shape (b : Bookmark) : Prop :=
  (∃ d, description b = Some d)
  ∧ (∃ n, notes b = Some n)
  ∧ category b ≠ EmptyString
  ∧ Forall clean_tag (tags b)
  ∧ image b ≠ Some EmptyString
  ∧ favicon b ≠ Some EmptyString.

(** The first string that is not empty, as [a || b || c] gives it. *)
Definition first_truthy (a b c : string) : string :=
  JsString.or_else a (JsString.or_else b c).

(** * Properties *)

(** ** Strings *)

Example toLowerCase_ex : JsString.toLowerCase "DevTools" = "devtools".
Proof. reflexivity. Qed.

Example trim_ex : JsString.trim "  a b  " = "a b".
Proof. reflexivity. Qed.

Example split_ex :
  JsString.split JsString.comma "x, y,,z" = ["x"; " y"; EmptyString; "z"].
Proof. reflexivity. Qed.

Example of_Z_ex : JsString.of_Z 1700000000000 = "1700000000000".
Proof. reflexivity. Qed.

Example tagsArray_ex : tagsArray " react, dev ,, news " = ["react"; "dev"; "news"].
Proof. reflexivity. Qed.

Lemma append_cons (c : Ascii.ascii) (s t : string) :
  String c s +:+ t = String c (s +:+ t).
Proof. reflexivity. Qed.

Lemma append_empty (t : string) : EmptyString +:+ t = t.
Proof. reflexivity. Qed.

Lemma truthy_true (s : string) : JsString.truthy s = true ↔ s ≠ EmptyString.
Proof. destruct s; simpl; split; congruence. Qed.

Lemma truthy_false (s : string) : JsString.truthy s = false ↔ s = EmptyString.
Proof. destruct s; simpl; split; congruence. Qed.

Lemma startsWith_spec (s q : string) :
  JsString.startsWith s q = true ↔ ∃ post, s = q +:+ post.
Proof.
  revert s. induction q as [|a q IH]; intros s.
  - simpl. split; [intros _; exists s; reflexivity | reflexivity].
  - destruct s as [|b s]; simpl.
    + split; [discriminate | intros [post H]; rewrite append_cons in H; discriminate].
    + rewrite andb_true_iff, IH. split.
      * intros [Hab [post ->]]. apply Ascii.eqb_eq in Hab as ->.
        exists post. reflexivity.
      * intros [post H]. rewrite append_cons in H. injection H as -> ->.
        split; [apply Ascii.eqb_refl | exists post; reflexivity].
Qed.

Lemma includes_spec (s q : string) :
  JsString.includes s q = true ↔ JsString.substring_of q s.
Proof.
  unfold JsString.substring_of. induction s as [|c s IH].
  - simpl. rewrite orb_false_r, startsWith_spec. split.
    + intros [post H]. exists EmptyString, post. exact H.
    + intros [[|a pre] [post H]].
      * exists post. exact H.
      * rewrite append_cons in H. discriminate.
  - cbn [JsString.includes]. rewrite orb_true_iff, startsWith_spec, IH. split.
    + intros [[post H] | [pre [post H]]].
      * exists EmptyString, post. exact H.
      * exists (String c pre), post. rewrite append_cons, H. reflexivity.
    + intros [[|a pre] [post H]].
      * left. exists post. exact H.
      * right. rewrite append_cons in H. injection H as -> ->.
        exists pre, post. reflexivity.
Qed.

Lemma substring_of_empty (q : string) :
  JsString.substring_of q EmptyString → q = EmptyString.
Proof.
  intros [[|a pre] [post H]].
  - destruct q; [reflexivity | rewrite append_empty, append_cons in H; discriminate].
  - rewrite append_cons in H. discriminate.
Qed.

Lemma toLowerCase_truthy (s : string) :
  JsString.truthy (JsString.toLowerCase s) = JsString.truthy s.
Proof. destruct s; reflexivity. Qed.

Lemma trim_truthy (s : string) :
  JsString.truthy (JsString.trim s) = true → JsString.truthy s = true.
Proof. destruct s; [discriminate | reflexivity]. Qed.

(** ** The search filter *)

Lemma matches_hit (q : string) (b : Bookmark) :
  q ≠ EmptyString → matches q b = true ↔ hit q b.
Proof.
  intros Hq. unfold matches, hit.
  rewrite !orb_true_iff, !includes_spec, existsb_exists.
  setoid_rewrite includes_spec.
  split.
  - intros [[[H | H] | H] | H]; auto.
    right; right; right. destruct (description b) as [d|]; [|discriminate].
    apply andb_true_iff in H as [_ H]. apply includes_spec in H. eauto.
  - intros [H | [H | [H | [d [Hd H]]]]]; auto.
    right. rewrite Hd. apply andb_true_iff. split.
    + apply truthy_true. intros ->. apply substring_of_empty in H. contradiction.
    + apply includes_spec, H.
Qed.

(** C6.  The search stage of the view passes the category-filtered list
    through unchanged when the query is empty after trimming; otherwise it
    keeps, in order, exactly the records hit by the lowercased query: those
    where it occurs in the lowercased title, or url, or some tag, or the
    description when one is present. *)
Theorem search_filter_spec (l : list Bookmark) (query : string) :
  (JsString.trim query = EmptyString → searchFilter query l = l)
  ∧ (JsString.trim query ≠ EmptyString →
     ∃ keep : Bookmark → bool,
       (∀ b, keep b = true ↔ hit (JsString.toLowerCase query) b)
       ∧ searchFilter query l = List.filter keep l).
Proof.
  unfold searchFilter. split.
  - intros ->. reflexivity.
  - intros Hne. apply truthy_true in Hne. rewrite Hne.
    exists (matches (JsString.toLowerCase query)). split; [|reflexivity].
    intros b. apply matches_hit.
    apply truthy_true. rewrite toLowerCase_truthy. apply trim_truthy, Hne.
Qed.

Lemma search_filter_spec_witness :
  searchFilter "   " [sampleBookmark] = [sampleBookmark]
  ∧ ∃ keep : Bookmark → bool,
      (∀ b, keep b = true ↔ hit (JsString.toLowerCase "DEV") b)
      ∧ searchFilter "DEV" [sampleBookmark] = List.filter keep [sampleBookmark].
Proof.
  split.
  - apply (proj1 (search_filter_spec [sampleBookmark] "   ")). reflexivity.
  - apply (proj2 (search_filter_spec [sampleBookmark] "DEV")). discriminate.
Defined.

Example search_dev_ex :
  searchFilter "dev" [sampleBookmark] = [sampleBookmark]
  ∧ searchFilter "xyz" [sampleBookmark] = [].
Proof. split; reflexivity. Qed.

(** ** Sorting *)

Ltac split_cmp :=
  match goal with
  | |- context [Z.ltb ?a ?b] => destruct (Z.ltb_spec a b)
  | |- context [Z.leb ?a ?b] => destruct (Z.leb_spec a b)
  end.

Section SortByKey.

Context {A : Type} (cmp : A → A → Z) (k : A → Z).
Hypothesis cmp_key : ∀ a b, cmp a b = k a - k b.

Lemma insert_by_perm (c : A → A → Z) (x : A) (l : list A) :
  Permutation (insert_by c x l) (x :: l).
Proof.
  induction l as [|y l IH]; simpl; [reflexivity|].
  destruct (0 <? c x y); [|reflexivity].
  rewrite IH. apply perm_swap.
Qed.

Lemma sort_by_perm (c : A → A → Z) (l : list A) : Permutation (sort_by c l) l.
Proof.
  induction l as [|x l IH]; simpl; [reflexivity|].
  rewrite insert_by_perm. apply perm_skip, IH.
Qed.

Lemma insert_by_sorted (x : A) (l : list A) :
  StronglySorted (λ a b, k a <= k b) l →
  StronglySorted (λ a b, k a <= k b) (insert_by cmp x l).
Proof.
  induction l as [|y l IH]; intros Hs; simpl.
  - constructor; constructor.
  - apply StronglySorted_inv in Hs as [Hl Hy].
    rewrite cmp_key. destruct (Z.ltb_spec 0 (k x - k y)).
    + constructor; [apply IH, Hl|].
      eapply Permutation_Forall; [symmetry; apply insert_by_perm|].
      constructor; [lia | exact Hy].
    + constructor; [constructor; assumption|].
      constructor; [lia|]. eapply Forall_impl; [exact Hy|].
      simpl. intros. lia.
Qed.

Lemma sort_by_sorted (l : list A) :
  StronglySorted (λ a b, k a <= k b) (sort_by cmp l).
Proof.
  induction l as [|x l IH]; simpl; [constructor | apply insert_by_sorted, IH].
Qed.

Lemma insert_by_insert_last (a x : A) (s : list A) :
  insert_by cmp a (insert_last_by cmp x s) = insert_last_by cmp x (insert_by cmp a s).
Proof.
  induction s as [|y s IH]; simpl; rewrite ?cmp_key;
    repeat (split_cmp; simpl; rewrite ?cmp_key); try lia; try reflexivity.
  rewrite IH. reflexivity.
Qed.

Lemma sort_by_snoc (l : list A) (x : A) :
  sort_by cmp (l ++ [x]) = insert_last_by cmp x (sort_by cmp l).
Proof.
  induction l as [|a l IH]; simpl; [reflexivity|].
  rewrite IH. apply insert_by_insert_last.
Qed.

Lemma insert_last_by_all (x : A) (s : list A) :
  Forall (λ y, k y <= k x) s → insert_last_by cmp x s = s ++ [x].
Proof.
  induction 1 as [|y s Hy Hs IH]; simpl; [reflexivity|].
  rewrite cmp_key. destruct (Z.leb_spec (k y - k x) 0); [|lia].
  rewrite IH. reflexivity.
Qed.

Lemma insert_last_by_snoc (x y : A) (t : list A) :
  k x < k y → insert_last_by cmp x (t ++ [y]) = insert_last_by cmp x t ++ [y].
Proof.
  intros Hxy. induction t as [|z t IH]; simpl; rewrite cmp_key.
  - destruct (Z.leb_spec (k y - k x) 0); [lia | reflexivity].
  - destruct (Z.leb_spec (k z - k x) 0); [rewrite IH|]; reflexivity.
Qed.

End SortByKey.

Lemma sort_by_ext {A : Type} (c1 c2 : A → A → Z) (l : list A) :
  (∀ a b, c1 a b = c2 a b) → sort_by c1 l = sort_by c2 l.
Proof.
  intros Hc. induction l as [|x l IH]; simpl; [reflexivity|].
  rewrite IH. generalize (sort_by c2 l). intros s.
  induction s as [|y s IHs]; simpl; [reflexivity|].
  rewrite Hc, IHs. reflexivity.
Qed.

Section AscDesc.

Context {A : Type} (k : A → Z).

Let asc (a b : A) : Z := k a - k b.
Let desc (a b : A) : Z := k b - k a.

Lemma desc_key (a b : A) : desc a b = (λ x, - k x) a - (λ x, - k x) b.
Proof. unfold desc. simpl. lia. Qed.

Lemma rev_insert_desc (x : A) (s : list A) :
  StronglySorted (λ a b, - k a <= - k b) s →
  rev (insert_by desc x s) = insert_last_by asc x (rev s).
Proof.
  induction s as [|y s IH]; intros Hs; simpl; [reflexivity|].
  apply StronglySorted_inv in Hs as [Hs Hy].
  unfold desc at 1. destruct (Z.ltb_spec 0 (k y - k x)).
  - simpl. rewrite IH by exact Hs.
    symmetry. apply (insert_last_by_snoc asc k); [reflexivity | lia].
  - change (rev (x :: y :: s)) with (rev (y :: s) ++ [x]).
    symmetry. apply (insert_last_by_all asc k); [reflexivity|].
    apply Forall_rev. constructor; [lia|].
    eapply Forall_impl; [exact Hy|]. simpl. intros. lia.
Qed.

Lemma sort_desc_rev_asc (l : list A) :
  sort_by desc l = rev (sort_by asc (rev l)).
Proof.
  rewrite <- (rev_involutive (sort_by desc l)). f_equal.
  induction l as [|x l IH]; [reflexivity|].
  change (sort_by desc (x :: l)) with (insert_by desc x (sort_by desc l)).
  rewrite rev_insert_desc by apply (sort_by_sorted desc (λ x, - k x) desc_key).
  rewrite IH. simpl rev. symmetry.
  apply (sort_by_snoc asc k). reflexivity.
Qed.

End AscDesc.

Lemma sorted_perm_eq (l1 l2 : list Z) :
  StronglySorted Z.le l1 → StronglySorted Z.le l2 → Permutation l1 l2 → l1 = l2.
Proof.
  revert l2. induction l1 as [|x l1 IH]; intros l2 H1 H2 HP.
  - apply Permutation_nil in HP. congruence.
  - destruct l2 as [|y l2].
    + apply Permutation_sym, Permutation_nil in HP. discriminate.
    + apply StronglySorted_inv in H1 as [H1 Hx].
      apply StronglySorted_inv in H2 as [H2 Hy].
      assert (x = y) as ->.
      { assert (In y (x :: l1)) as Hin1
          by (eapply Permutation_in; [symmetry; exact HP | left; reflexivity]).
        assert (In x (y :: l2)) as Hin2
          by (eapply Permutation_in; [exact HP | left; reflexivity]).
        rewrite List.Forall_forall in Hx, Hy.
        destruct Hin1 as [->|Hin1]; [reflexivity|].
        destruct Hin2 as [->|Hin2]; [reflexivity|].
        apply Hx in Hin1. apply Hy in Hin2. lia. }
      f_equal. apply IH; [assumption..|].
      eapply Permutation_cons_inv, HP.
Qed.

Lemma sort_by_keys_sorted {A : Type} (k : A → Z) (l : list A) :
  StronglySorted Z.le (map k (sort_by (λ a b, k a - k b) l)).
Proof.
  pose proof (sort_by_sorted (λ a b, k a - k b) k (λ _ _, eq_refl) l) as Hs.
  induction Hs as [|x s Hs IH Hx]; simpl; constructor; [exact IH|].
  rewrite List.Forall_forall in *. intros z Hz.
  apply in_map_iff in Hz as [b [<- Hb]]. apply Hx, Hb.
Qed.

Lemma sort_by_keys_perm_invariant {A : Type} (k : A → Z) (l1 l2 : list A) :
  Permutation l1 l2 →
  map k (sort_by (λ a b, k a - k b) l1) = map k (sort_by (λ a b, k a - k b) l2).
Proof.
  intros HP. apply sorted_perm_eq; try apply sort_by_keys_sorted.
  apply Permutation_map. rewrite !sort_by_perm. exact HP.
Qed.

Lemma map_eq_inj_on {A B : Type} (f : A → B) (l1 l2 : list A) :
  (∀ a b, In a l1 → In b l2 → f a = f b → a = b) →
  map f l1 = map f l2 → l1 = l2.
Proof.
  revert l2. induction l1 as [|a l1 IH]; intros [|b l2] Hinj Heq;
    simpl in Heq; try discriminate; [reflexivity|].
  injection Heq as Hab Heq. f_equal.
  - apply Hinj; [left; reflexivity | left; reflexivity | exact Hab].
  - apply IH; [|exact Heq]. intros x y Hx Hy. apply Hinj; right; assumption.
Qed.

Lemma NoDup_map_inj_on {A B : Type} (f : A → B) (l : list A) :
  List.NoDup (map f l) → ∀ a b, In a l → In b l → f a = f b → a = b.
Proof.
  induction l as [|x l IH]; simpl; intros Hnd a b Ha Hb Hf; [contradiction|].
  apply List.NoDup_cons_iff in Hnd as [Hx Hnd].
  destruct Ha as [->|Ha], Hb as [->|Hb]; [reflexivity| | |apply IH; assumption].
  - exfalso. apply Hx. rewrite Hf. apply in_map, Hb.
  - exfalso. apply Hx. rewrite <- Hf. apply in_map, Ha.
Qed.

Lemma sort_by_head_least {A : Type} (k : A → Z) (l : list A) (x : A) (rest : list A) :
  sort_by (λ a b, k a - k b) l = x :: rest → ∀ b, In b l → k x <= k b.
Proof.
  intros Heq b Hb.
  pose proof (sort_by_sorted (λ a b, k a - k b) k (λ _ _, eq_refl) l) as Hs.
  rewrite Heq in Hs. apply StronglySorted_inv in Hs as [_ Hx].
  assert (In b (x :: rest)) as [->|Hin].
  { rewrite <- Heq. eapply Permutation_in; [symmetry; apply sort_by_perm | exact Hb]. }
  - lia.
  - rewrite List.Forall_forall in Hx. apply Hx, Hin.
Qed.

Section DateSorts.

Variable localeCompare : string → string → Z.

Lemma date_desc_comparator (l : list Bookmark) :
  sort_by (comparator localeCompare "date-desc") l
  = sort_by (λ a b, createdAt b - createdAt a) l.
Proof. apply sort_by_ext. reflexivity. Qed.

Lemma date_asc_comparator (l : list Bookmark) :
  sort_by (comparator localeCompare "date-asc") l
  = sort_by (λ a b, createdAt a - createdAt b) l.
Proof. apply sort_by_ext. reflexivity. Qed.

(** C7.  Sorting by [date-desc] is the reversal of sorting the reversed
    input by [date-asc]: the two orders are mirror images, records with
    equal [createdAt] keeping their input order in both.  Hence the
    [createdAt] sequences of the two results are exact reversals of each
    other, the results themselves are when no two records share a
    [createdAt], both are rearrangements of the input, [date-desc] starts
    with a largest [createdAt] and [date-asc] with a smallest. *)
Theorem date_desc_reverses_date_asc (l : list Bookmark) :
  let desc := sort_by (comparator localeCompare "date-desc") l in
  let asc := sort_by (comparator localeCompare "date-asc") l in
  desc = rev (sort_by (comparator localeCompare "date-asc") (rev l))
  ∧ map createdAt desc = rev (map createdAt asc)
  ∧ (List.NoDup (map createdAt l) → desc = rev asc)
  ∧ Permutation desc l ∧ Permutation asc l
  ∧ (∀ x rest, desc = x :: rest → ∀ b, In b l → createdAt b <= createdAt x)
  ∧ (∀ x rest, asc = x :: rest → ∀ b, In b l → createdAt x <= createdAt b).
Proof.
  intros desc asc. subst desc asc.
  rewrite !date_desc_comparator, !date_asc_comparator.
  pose proof (sort_desc_rev_asc createdAt l) as Hrev. cbv zeta in Hrev.
  split; [exact Hrev|].
  split; [|split; [|split; [|split; [|split]]]].
  - rewrite Hrev, map_rev. f_equal.
    apply sort_by_keys_perm_invariant. symmetry. apply Permutation_rev.
  - intros Hnd. rewrite Hrev. f_equal.
    apply (map_eq_inj_on createdAt).
    + intros a b Ha Hb. apply (NoDup_map_inj_on createdAt l Hnd).
      * eapply Permutation_in in Ha; [|apply sort_by_perm].
        apply in_rev, Ha.
      * eapply Permutation_in in Hb; [|apply sort_by_perm]. exact Hb.
    + apply sort_by_keys_perm_invariant. symmetry. apply Permutation_rev.
  - apply sort_by_perm.
  - apply sort_by_perm.
  - intros x rest Heq b Hb.
    assert (- createdAt x <= - createdAt b) as Hl; [|lia].
    apply (sort_by_head_least (λ a, - createdAt a) l x rest); [|exact Hb].
    rewrite <- Heq. apply sort_by_ext. intros. lia.
  - intros x rest Heq b Hb.
    apply (sort_by_head_least createdAt l x rest Heq b Hb).
Qed.

End DateSorts.

Lemma date_desc_reverses_date_asc_witness :
  let l := [sampleRecord "1" "https://a.com" 100; sampleRecord "2" "https://b.com" 300;
            sampleRecord "3" "https://c.com" 200] in
  List.NoDup (map createdAt l)
  ∧ sort_by (comparator (λ _ _, 0) "date-desc") l
    = rev (sort_by (comparator (λ _ _, 0) "date-asc") l).
Proof.
  intros l.
  assert (List.NoDup (map createdAt l)) as Hnd.
  { repeat constructor; simpl; intuition discriminate. }
  split; [exact Hnd|].
  exact (proj1 (proj2 (proj2 (date_desc_reverses_date_asc (λ _ _, 0) l))) Hnd).
Defined.

Example date_sorts_ex :
  let l := [sampleRecord "1" "https://a.com" 100; sampleRecord "2" "https://b.com" 300;
            sampleRecord "3" "https://c.com" 100] in
  map id (sort_by (comparator (λ _ _, 0) "date-desc") l) = ["2"; "1"; "3"]
  ∧ map id (sort_by (comparator (λ _ _, 0) "date-asc") l) = ["1"; "3"; "2"]
  ∧ map id (sort_by (comparator (λ _ _, 0) "newest") l) = ["1"; "2"; "3"].
Proof. repeat split; reflexivity. Qed.

(** ** The view computation on the heap *)

Lemma bind_run {A B : Type} (m : M A) (f : A → M B) h a h' :
  m h = Some (a, h') → (m ≫= f) h = f a h'.
Proof. intros H. unfold mbind, M_bind. rewrite H. reflexivity. Qed.

Lemma spread_private (h : gmap positive (list Bookmark)) (a : ref) (xs : list Bookmark) :
  h !! a = Some xs →
  ∃ r h', Array_spread a h = Some (r, h') ∧ private h h' r xs.
Proof.
  intros Ha. exists (fresh (dom h)), (<[fresh (dom h) := xs]> h).
  assert (h !! fresh (dom h) = None) as Hfresh
    by (apply not_elem_of_dom, is_fresh).
  split.
  - unfold Array_spread. erewrite bind_run; [reflexivity|].
    unfold read. rewrite Ha. reflexivity.
  - split; [apply insert_subseteq, Hfresh|].
    split; [exact Hfresh | apply lookup_insert_eq].
Qed.

Lemma filter_private (p : Bookmark → bool) (h h1 : gmap positive (list Bookmark))
    (r : ref) (ys : list Bookmark) :
  private h h1 r ys →
  ∃ r' h2, Array_filter p r h1 = Some (r', h2) ∧ private h h2 r' (List.filter p ys).
Proof.
  intros (Hsub & Hnew & Hr).
  exists (fresh (dom h1)), (<[fresh (dom h1) := List.filter p ys]> h1).
  assert (h1 !! fresh (dom h1) = None) as Hfresh
    by (apply not_elem_of_dom, is_fresh).
  split.
  - unfold Array_filter. erewrite bind_run; [reflexivity|].
    unfold read. rewrite Hr. reflexivity.
  - split; [|split].
    + etrans; [exact Hsub | apply insert_subseteq, Hfresh].
    + destruct (h !! fresh (dom h1)) as [v|] eqn:E; [|reflexivity].
      eapply lookup_weaken in E; [|exact Hsub]. rewrite Hfresh in E. discriminate.
    + apply lookup_insert_eq.
Qed.

Lemma sort_private (cmp : Bookmark → Bookmark → Z) (h h1 : gmap positive (list Bookmark))
    (r : ref) (ys : list Bookmark) :
  private h h1 r ys →
  ∃ h2, Array_sort cmp r h1 = Some (r, h2) ∧ private h h2 r (sort_by cmp ys).
Proof.
  intros (Hsub & Hnew & Hr).
  exists (<[r := sort_by cmp ys]> h1). split.
  - unfold Array_sort. erewrite bind_run by (unfold read; rewrite Hr; reflexivity).
    erewrite bind_run by (unfold write; rewrite Hr; reflexivity).
    reflexivity.
  - split; [|split].
    + apply insert_subseteq_r; assumption.
    + exact Hnew.
    + apply lookup_insert_eq.
Qed.

Section ViewRun.

Variable localeCompare : string → string → Z.

Lemma filteredBookmarks_run (h : gmap positive (list Bookmark)) (src : ref)
    (bs : list Bookmark) (cat q so : string) :
  h !! src = Some bs →
  ∃ r h', filteredBookmarks localeCompare src cat q so h = Some (r, h')
          ∧ private h h' r (view localeCompare bs cat q so).
Proof.
  intros Hsrc. unfold filteredBookmarks, view, categoryFilter, searchFilter.
  destruct (spread_private h src bs Hsrc) as (r0 & h0 & Hrun0 & P0).
  erewrite bind_run by exact Hrun0.
  assert (∃ r1 h1,
    (if String.eqb cat "Favorites" then Array_filter isFavorite r0
     else if negb (String.eqb cat "All")
          then Array_filter (λ b, String.eqb (category b) cat) r0
          else mret r0) h0 = Some (r1, h1)
    ∧ private h h1 r1
        (if String.eqb cat "Favorites" then List.filter isFavorite bs
         else if negb (String.eqb cat "All")
              then List.filter (λ b, String.eqb (category b) cat) bs
              else bs)) as (r1 & h1 & Hrun1 & P1).
  { destruct (String.eqb cat "Favorites"); [apply filter_private, P0|].
    destruct (negb (String.eqb cat "All")); [apply filter_private, P0|].
    exists r0, h0. split; [reflexivity | exact P0]. }
  erewrite bind_run by exact Hrun1.
  set (l1 := if String.eqb cat "Favorites" then List.filter isFavorite bs else _) in *.
  assert (∃ r2 h2,
    (if JsString.truthy (JsString.trim q)
     then Array_filter (matches (JsString.toLowerCase q)) r1
     else mret r1) h1 = Some (r2, h2)
    ∧ private h h2 r2
        (if JsString.truthy (JsString.trim q)
         then List.filter (matches (JsString.toLowerCase q)) l1 else l1))
    as (r2 & h2 & Hrun2 & P2).
  { destruct (JsString.truthy (JsString.trim q)); [apply filter_private, P1|].
    exists r1, h1. split; [reflexivity | exact P1]. }
  erewrite bind_run by exact Hrun2.
  destruct (sort_private (comparator localeCompare so) h h2 r2 _ P2) as (h3 & Hrun3 & P3).
  erewrite bind_run by exact Hrun3.
  exists r2, h3. split; [reflexivity | exact P3].
Qed.

(** C8.  The view computation is a function of its inputs and leaves
    what it reads alone: run in any two heaps in which the [bookmarks]
    reference holds the same snapshot, with the same category, query and
    sort option, it returns arrays with the same elements in the same
    order (those of [view]), and every array that existed before the run,
    the source collection with its records among them, holds afterwards
    exactly what it held before. *)
Theorem filteredBookmarks_pure (h1 h2 : gmap positive (list Bookmark)) (src1 src2 : ref)
    (bs : list Bookmark) (cat q so : string) :
  h1 !! src1 = Some bs →
  h2 !! src2 = Some bs →
  ∃ r1 h1' r2 h2',
    filteredBookmarks localeCompare src1 cat q so h1 = Some (r1, h1')
    ∧ filteredBookmarks localeCompare src2 cat q so h2 = Some (r2, h2')
    ∧ h1' !! r1 = Some (view localeCompare bs cat q so)
    ∧ h2' !! r2 = h1' !! r1
    ∧ h1' !! src1 = Some bs
    ∧ h2' !! src2 = Some bs
    ∧ (∀ a xs, h1 !! a = Some xs → h1' !! a = Some xs)
    ∧ (∀ a xs, h2 !! a = Some xs → h2' !! a = Some xs).
Proof.
  intros H1 H2.
  destruct (filteredBookmarks_run h1 src1 bs cat q so H1) as (r1 & h1' & R1 & S1 & _ & O1).
  destruct (filteredBookmarks_run h2 src2 bs cat q so H2) as (r2 & h2' & R2 & S2 & _ & O2).
  exists r1, h1', r2, h2'.
  repeat split; try assumption.
  - congruence.
  - eapply lookup_weaken; eassumption.
  - eapply lookup_weaken; eassumption.
  - intros a xs Ha. eapply lookup_weaken; eassumption.
  - intros a xs Ha. eapply lookup_weaken; eassumption.
Qed.

End ViewRun.

Lemma filteredBookmarks_pure_witness :
  let l := [sampleRecord "1" "https://a.com" 100; sampleRecord "2" "https://b.com" 300] in
  let h1 : gmap positive (list Bookmark) := {[ 1%positive := l ]} in
  let h2 : gmap positive (list Bookmark) := {[ 7%positive := l ]} in
  ∃ r1 h1' r2 h2',
    filteredBookmarks (λ _ _, 0) 1%positive "All" "b.com" "date-desc" h1 = Some (r1, h1')
    ∧ filteredBookmarks (λ _ _, 0) 7%positive "All" "b.com" "date-desc" h2 = Some (r2, h2')
    ∧ h2' !! r2 = h1' !! r1
    ∧ h1' !! 1%positive = Some l.
Proof.
  intros l h1 h2.
  destruct (filteredBookmarks_pure (λ _ _, 0) h1 h2 1%positive 7%positive l
              "All" "b.com" "date-desc")
    as (r1 & h1' & r2 & h2' & R1 & R2 & _ & O & S1 & _).
  - reflexivity.
  - reflexivity.
  - exists r1, h1', r2, h2'. repeat split; assumption.
Defined.

(** Sorting the array of the state itself, without the copy, would change
    it: the model tells the two apart. *)
Example sort_in_place_ex :
  let l := [sampleRecord "1" "https://a.com" 100; sampleRecord "2" "https://b.com" 300] in
  let h : gmap positive (list Bookmark) := {[ 1%positive := l ]} in
  (Array_sort (comparator (λ _ _, 0) "date-desc") 1%positive h
     ≫= λ '(_, h'), h' !! 1%positive) = Some (rev l).
Proof. reflexivity. Qed.

(** ** Saving and deleting *)

Lemma find_none_iff {A : Type} (p : A → bool) (l : list A) :
  List.find p l = None ↔ ∀ x, In x l → p x = false.
Proof.
  split; [apply find_none|].
  induction l as [|a l IH]; intros H; simpl; [reflexivity|].
  rewrite (H a (or_introl eq_refl)). apply IH. intros x Hx. apply H. right. exact Hx.
Qed.

Lemma find_some_iff {A : Type} (p : A → bool) (l : list A) :
  (∃ x, List.find p l = Some x) ↔ ∃ x, In x l ∧ p x = true.
Proof.
  split.
  - intros [x Hx]. exists x. apply find_some in Hx. exact Hx.
  - intros [x [Hin Hp]]. destruct (List.find p l) as [y|] eqn:E; [eauto|].
    rewrite (find_none _ _ E x Hin) in Hp. discriminate.
Qed.

Lemma id_is_true (i : string) (b : Bookmark) : id_is (Some i) b = true ↔ id b = i.
Proof. apply String.eqb_eq. Qed.

Lemma id_is_false (i : string) (b : Bookmark) : id_is (Some i) b = false ↔ id b ≠ i.
Proof. apply String.eqb_neq. Qed.

Lemma is_duplicate_add (u : string) (b : Bookmark) :
  is_duplicate u None b = true ↔ url b = u.
Proof.
  unfold is_duplicate. simpl. rewrite andb_true_r. apply String.eqb_eq.
Qed.

Lemma is_duplicate_update (u i : string) (b : Bookmark) :
  is_duplicate u (Some i) b = true ↔ url b = u ∧ id b ≠ i.
Proof.
  unfold is_duplicate. rewrite andb_true_iff, negb_true_iff, id_is_false.
  rewrite String.eqb_eq. reflexivity.
Qed.

Lemma truthy_id_some (i : string) : i ≠ EmptyString → truthy_id (Some i) = Some i.
Proof. intros H. simpl. apply truthy_true in H. rewrite H. reflexivity. Qed.

Lemma find_unique_id (i : string) (b : Bookmark) (bs : list Bookmark) :
  unique_ids bs → In b bs → id b = i → List.find (id_is (Some i)) bs = Some b.
Proof.
  unfold unique_ids. induction bs as [|x bs IH]; simpl; intros Hnd Hin Hid; [contradiction|].
  apply List.NoDup_cons_iff in Hnd as [Hx Hnd].
  destruct Hin as [->|Hin].
  - apply String.eqb_eq in Hid. rewrite Hid. reflexivity.
  - destruct (String.eqb_spec (id x) i) as [E|E].
    + exfalso. apply Hx. rewrite E, <- Hid. apply in_map, Hin.
    + apply IH; assumption.
Qed.

(** The three ways [handleSave] can end when the draft has a URL: the
    duplicate report, the update of an existing record (or the
    [TypeError] when that record is missing), the add. *)
Lemma handleSave_unfold (t1 t2 : Z) (st : AppState Bookmark) :
  Form.url (formData st) ≠ EmptyString →
  handleSave t1 t2 st =
    match List.find (is_duplicate (Form.url (formData st)) (editingId st)) (bookmarks st) with
    | Some _ => Return (setUrlError "This URL is already saved." st)
    | None =>
        match truthy_id (editingId st) with
        | Some e =>
            match List.find (id_is (Some e)) (bookmarks st) with
            | None => Throw "TypeError"
            | Some old =>
                Return (closeModal
                          (setBookmarks
                             (replaceById e
                                (newBookmark e (createdAt old) (formData st) (isFavorite old))
                                (bookmarks st))
                             st))
            end
        | None =>
            Return (closeModal
                      (setBookmarks
                         (newBookmark (JsString.of_Z t1) t2 (formData st) false :: bookmarks st)
                         st))
        end
    end.
Proof.
  intros Hu. unfold handleSave. apply truthy_true in Hu. rewrite Hu. reflexivity.
Qed.

Lemma not_rejected_closeModal (st st0 : AppState Bookmark) :
  Return (closeModal st0) ≠ Return (setUrlError "This URL is already saved." st).
Proof.
  intros H.
  pose proof (f_equal (λ r, match r with
                            | Return s => urlError s
                            | Throw _ => EmptyString
                            end) H) as H'.
  discriminate H'.
Qed.

Lemma rejects_iff_duplicate (t1 t2 : Z) (st : AppState Bookmark) :
  Form.url (formData st) ≠ EmptyString →
  rejects_DuplicateURL st (handleSave t1 t2 st)
  ↔ ∃ b, In b (bookmarks st)
         ∧ is_duplicate (Form.url (formData st)) (editingId st) b = true.
Proof.
  intros Hu. unfold rejects_DuplicateURL. rewrite (handleSave_unfold t1 t2 st Hu).
  rewrite <- find_some_iff.
  destruct (List.find (is_duplicate _ _) (bookmarks st)) as [b|].
  - split; [eauto | reflexivity].
  - split; [|intros [b Hb]; discriminate].
    intros H. exfalso.
    destruct (truthy_id (editingId st)) as [e|].
    + destruct (List.find (id_is (Some e)) (bookmarks st)); [|discriminate].
      exact (not_rejected_closeModal _ _ H).
    + exact (not_rejected_closeModal _ _ H).
Qed.

Lemma handleSave_update_commits (t1 t2 : Z) (st : AppState Bookmark)
    (i : string) (old : Bookmark) :
  Form.url (formData st) ≠ EmptyString →
  editingId st = Some i → i ≠ EmptyString →
  List.find (id_is (Some i)) (bookmarks st) = Some old →
  (∀ b, In b (bookmarks st) → url b = Form.url (formData st) → id b = i) →
  commits st
    (replaceById i (newBookmark i (createdAt old) (formData st) (isFavorite old))
       (bookmarks st))
    (handleSave t1 t2 st).
Proof.
  intros Hu He Hi Hold Hself. unfold commits.
  rewrite (handleSave_unfold t1 t2 st Hu), He.
  assert (List.find (is_duplicate (Form.url (formData st)) (Some i)) (bookmarks st) = None)
    as ->.
  { apply find_none_iff. intros b Hb.
    destruct (is_duplicate _ _ b) eqn:E; [|reflexivity].
    apply is_duplicate_update in E as [E1 E2]. exfalso. apply E2, Hself; assumption. }
  rewrite (truthy_id_some i Hi), Hold. reflexivity.
Qed.

(** C2 (as the handler has it).  For a draft with a non-empty URL, a save
    that adds reports a duplicate URL exactly when some record has the
    URL the draft holds when it is saved, compared as it stands (the
    handler adds no scheme prefix of its own); a save that updates [i]
    reports it exactly when a record with another id has that URL; and an
    update of a present record [i] whose URL meets no record but [i]
    itself is accepted and commits the replacement. *)
Theorem handleSave_duplicate_rule (t1 t2 : Z) (st : AppState Bookmark) :
  Form.url (formData st) ≠ EmptyString →
  (editingId st = None →
     rejects_DuplicateURL st (handleSave t1 t2 st)
     ↔ ∃ b, In b (bookmarks st) ∧ url b = Form.url (formData st))
  ∧ (∀ i, editingId st = Some i →
     rejects_DuplicateURL st (handleSave t1 t2 st)
     ↔ ∃ b, In b (bookmarks st) ∧ url b = Form.url (formData st) ∧ id b ≠ i)
  ∧ (∀ i old, editingId st = Some i → i ≠ EmptyString →
     List.find (id_is (Some i)) (bookmarks st) = Some old →
     (∀ b, In b (bookmarks st) → url b = Form.url (formData st) → id b = i) →
     commits st
       (replaceById i (newBookmark i (createdAt old) (formData st) (isFavorite old))
          (bookmarks st))
       (handleSave t1 t2 st)).
Proof.
  intros Hu. split; [|split].
  - intros He. rewrite (rejects_iff_duplicate t1 t2 st Hu), He.
    setoid_rewrite is_duplicate_add. reflexivity.
  - intros i He. rewrite (rejects_iff_duplicate t1 t2 st Hu), He.
    setoid_rewrite is_duplicate_update. reflexivity.
  - intros i old He Hi Hold Hself.
    apply handleSave_update_commits; assumption.
Qed.

Lemma handleSave_duplicate_rule_witness :
  let st := withDraft (Some "1") (sampleDraft "https://a.com" "A again")
              (initialState [sampleBookmark; sampleRecord "2" "https://b.com" 200]) in
  commits st
    [newBookmark "1" 100 (formData st) false; sampleRecord "2" "https://b.com" 200]
    (handleSave 0 0 st).
Proof.
  intros st.
  refine (proj2 (proj2 (handleSave_duplicate_rule 0 0 st _)) "1" sampleBookmark _ _ _ _).
  - discriminate.
  - reflexivity.
  - discriminate.
  - reflexivity.
  - simpl. intros b [<-|[<-|[]]]; [reflexivity | discriminate].
Defined.

(** C2 as stated fails: the handler compares the URL of the draft as it
    stands.  A draft whose URL has no scheme prefix is added although a
    record already has its prefixed form. *)
Lemma handleSave_raw_url_counterexample :
  let st := withDraft None (sampleDraft "my site" "Mine")
              (initialState [sampleRecord "1" "https://my site" 100]) in
  (∃ b, In b (bookmarks st) ∧ url b = validUrl (Form.url (formData st)))
  ∧ ¬ rejects_DuplicateURL st (handleSave 200 200 st)
  ∧ commits st
      [newBookmark "200" 200 (formData st) false; sampleRecord "1" "https://my site" 100]
      (handleSave 200 200 st).
Proof.
  intros st. split; [|split].
  - exists (sampleRecord "1" "https://my site" 100). split; [left|]; reflexivity.
  - unfold rejects_DuplicateURL. intros H. vm_compute in H. discriminate.
  - reflexivity.
Qed.

(** The way to that draft through the form: the lookup started when the
    URL field loses focus fails, the prefixed URL does not parse, the
    draft keeps the URL as typed, no field error is set, and the save
    goes through. *)
Example blur_then_save_ex :
  let st := withDraft None (sampleDraft "my site" "Mine")
              (initialState [sampleRecord "1" "https://my site" 100]) in
  ∃ st1 st2,
    onBlurUrl sampleHostname (Body "fail" None) st = Return st1
    ∧ Form.url (formData st1) = "my site"
    ∧ urlError st1 = EmptyString
    ∧ fetchError st1 = "Invalid URL format"
    ∧ handleSave 200 200 st1 = Return st2
    ∧ map url (bookmarks st2) = ["my site"; "https://my site"].
Proof.
  intros st.
  let r1 := eval vm_compute in (onBlurUrl sampleHostname (Body "fail" None) st) in
  match r1 with
  | Return ?s1 =>
      let r2 := eval vm_compute in (handleSave 200 200 s1) in
      match r2 with
      | Return ?s2 => exists s1, s2
      end
  end.
  repeat split; vm_compute; reflexivity.
Qed.

(** The adds of the specification's example: the URL of a stored record
    is refused, another one is added. *)
Example add_example_ex :
  let st := initialState [sampleBookmark] in
  rejects_DuplicateURL (withDraft None (sampleDraft "https://a.com" "A") st)
    (handleSave 200 200 (withDraft None (sampleDraft "https://a.com" "A") st))
  ∧ length (bookmarks (exec (Save None (sampleDraft "https://b.com" "B") 200 200) st)) = 2%nat.
Proof. split; reflexivity. Qed.

(** ** Update keeps [createdAt] and [isFavorite] *)

Lemma lookup_map {A B : Type} (f : A → B) (l : list A) (n : nat) (x : A) :
  l !! n = Some x → map f l !! n = Some (f x).
Proof.
  revert n. induction l as [|y l IH]; intros [|n]; simpl; try discriminate.
  - intros [= ->]. reflexivity.
  - apply IH.
Qed.

(** C3 (as the handler has it).  An accepted update of a record with a
    non-empty id, present in a collection with pairwise distinct ids,
    gives a collection of the same length in which every record with
    another id is where it was, unchanged, and the record with that id
    keeps its [id], [createdAt] and [isFavorite] and takes every other
    field from the draft ([tags] as the draft's text parses). *)
Theorem update_keeps_createdAt_isFavorite (t1 t2 : Z) (st : AppState Bookmark)
    (i : string) (old : Bookmark) :
  let fd := formData st in
  editingId st = Some i →
  i ≠ EmptyString →
  unique_ids (bookmarks st) →
  In old (bookmarks st) →
  id old = i →
  Form.url fd ≠ EmptyString →
  (∀ b, In b (bookmarks st) → url b = Form.url fd → id b = i) →
  ∃ st',
    handleSave t1 t2 st = Return st'
    ∧ length (bookmarks st') = length (bookmarks st)
    ∧ ∀ (n : nat) (b : Bookmark), bookmarks st !! n = Some b →
        (id b ≠ i → bookmarks st' !! n = Some b)
        ∧ (id b = i →
           ∃ b', bookmarks st' !! n = Some b'
                 ∧ createdAt b' = createdAt b
                 ∧ isFavorite b' = isFavorite b
                 ∧ id b' = id b
                 ∧ url b' = Form.url fd
                 ∧ title b' = Form.title fd
                 ∧ description b' = Some (Form.description fd)
                 ∧ category b' = Form.category fd
                 ∧ tags b' = tagsArray (Form.tags fd)
                 ∧ notes b' = Some (Form.notes fd)
                 ∧ image b' = Form.image fd
                 ∧ favicon b' = Form.favicon fd).
Proof.
  intros fd He Hi Hnd Hin Hid Hu Hself.
  pose proof (find_unique_id i old _ Hnd Hin Hid) as Hfind.
  pose proof (handleSave_update_commits t1 t2 st i old Hu He Hi Hfind Hself) as Hc.
  unfold commits in Hc. eexists. split; [exact Hc|].
  split; [apply length_map|].
  intros n b Hb. cbn [bookmarks closeModal setUrlError setFetchError setIsModalOpen setBookmarks].
  unfold replaceById. rewrite (lookup_map _ _ _ _ Hb).
  split.
  - intros Hne. apply id_is_false in Hne. rewrite Hne. reflexivity.
  - intros Heq.
    assert (b = old) as ->.
    { apply list_elem_of_lookup_2, list_elem_of_In in Hb.
      pose proof (find_unique_id i b _ Hnd Hb Heq). congruence. }
    apply id_is_true in Heq. rewrite Heq.
    eexists. split; [reflexivity|]. simpl. repeat split. symmetry. exact Hid.
Qed.

Lemma update_keeps_createdAt_isFavorite_witness :
  let st := withDraft (Some "1") (sampleDraft "https://a.com/new" "Renamed")
              (initialState [sampleBookmark; sampleRecord "2" "https://b.com" 200]) in
  ∃ st',
    handleSave 999 999 st = Return st'
    ∧ map createdAt (bookmarks st') = [100; 200]
    ∧ map url (bookmarks st') = ["https://a.com/new"; "https://b.com"].
Proof.
  intros st.
  destruct (update_keeps_createdAt_isFavorite 999 999 st "1" sampleBookmark)
    as (st' & Hrun & _ & _).
  - reflexivity.
  - discriminate.
  - repeat constructor; simpl; intuition discriminate.
  - left. reflexivity.
  - reflexivity.
  - discriminate.
  - simpl. intros b [<-|[<-|[]]]; [reflexivity | discriminate].
  - exists st'. split; [exact Hrun|].
    vm_compute in Hrun. injection Hrun as <-. split; reflexivity.
Defined.

(** C3 as stated fails for an id that is the empty string, which the
    handler takes for no id: the save adds a record and leaves the one
    being edited with all its fields.  And where two records share an id,
    both are replaced by one object, which carries the [createdAt] of the
    first. *)
Lemma update_falsy_id_counterexample :
  let kept := sampleRecord EmptyString "https://a.com" 100 in
  let st := withDraft (Some EmptyString) (sampleDraft "https://a.com/new" "Renamed")
              (initialState [kept]) in
  let twins := [sampleRecord "1" "https://a.com" 100; sampleRecord "1" "https://b.com" 200] in
  let st2 := withDraft (Some "1") (sampleDraft "https://c.com" "C") (initialState twins) in
  (In kept (bookmarks st) ∧ id kept = EmptyString
   ∧ commits st [newBookmark "500" 501 (formData st) false; kept] (handleSave 500 501 st)
   ∧ title kept ≠ Form.title (formData st))
  ∧ (∃ st2', handleSave 0 0 st2 = Return st2'
             ∧ map createdAt (bookmarks st2) = [100; 200]
             ∧ map createdAt (bookmarks st2') = [100; 100]).
Proof.
  intros kept st twins st2. split.
  - split; [left; reflexivity|]. split; [reflexivity|].
    split; [reflexivity | discriminate].
  - eexists. split; [reflexivity|]. split; reflexivity.
Qed.

(** ** Adding puts the new record first *)

Lemma sort_by_zero {A : Type} (cmp : A → A → Z) (l : list A) :
  (∀ a b, cmp a b = 0) → sort_by cmp l = l.
Proof.
  intros H0. induction l as [|x l IH]; simpl; [reflexivity|].
  rewrite IH. destruct l as [|y l]; simpl; [reflexivity|].
  rewrite H0. reflexivity.
Qed.

Lemma comparator_unrecognized (lc : string → string → Z) (so : string) (a b : Bookmark) :
  unrecognized so → comparator lc so a b = 0.
Proof.
  intros (H1 & H2 & H3). unfold comparator.
  apply String.eqb_neq in H1, H2, H3. rewrite H1, H2, H3. reflexivity.
Qed.

Lemma view_identity (lc : string → string → Z) (so : string) (l : list Bookmark) :
  unrecognized so → view lc l "All" EmptyString so = l.
Proof.
  intros Hso. unfold view. simpl.
  apply sort_by_zero. intros a b. apply comparator_unrecognized, Hso.
Qed.

Lemma exec_add (a : Addition) (st : AppState Bookmark) :
  addedUrl a ≠ EmptyString →
  (∀ b, In b (bookmarks st) → url b ≠ addedUrl a) →
  bookmarks (exec (addOp a) st) = added a :: bookmarks st.
Proof.
  destruct a as [[d t1] t2]. simpl. intros Hu Hnew.
  rewrite handleSave_unfold by exact Hu. simpl.
  assert (List.find (is_duplicate (Form.url d) None) (bookmarks st) = None) as ->.
  { apply find_none_iff. intros b Hb.
    destruct (is_duplicate _ _ b) eqn:E; [|reflexivity].
    apply is_duplicate_add in E. exfalso. exact (Hnew b Hb E). }
  reflexivity.
Qed.

(** C10.  Accepted adds go to the front: after a run of adds (drafts
    with non-empty, pairwise different URLs that no record has yet) the
    collection is the new records, the last added first, followed by the
    old records in their order; for one add, the new record and then the
    old collection.  The view for the category [All], an empty query and a
    sort option the comparator does not know shows the collection in that
    stored order. *)
Theorem adds_newest_first (localeCompare : string → string → Z)
    (adds : list Addition) (st : AppState Bookmark) (sortOption : string) :
  Forall (λ a, addedUrl a ≠ EmptyString) adds →
  List.NoDup (map addedUrl adds) →
  (∀ a b, In a adds → In b (bookmarks st) → url b ≠ addedUrl a) →
  bookmarks (run (map addOp adds) st) = rev (map added adds) ++ bookmarks st
  ∧ (unrecognized sortOption →
     view localeCompare (bookmarks (run (map addOp adds) st)) "All" EmptyString sortOption
     = rev (map added adds) ++ bookmarks st).
Proof.
  intros Hne Hnd Hnew.
  assert (bookmarks (run (map addOp adds) st) = rev (map added adds) ++ bookmarks st) as Hrun.
  { revert st Hnew. induction adds as [|a adds IH]; intros st Hnew; [reflexivity|].
    apply Forall_cons in Hne as [Ha Hne].
    apply List.NoDup_cons_iff in Hnd as [Hfresh Hnd].
    change (run (map addOp (a :: adds)) st)
      with (run (map addOp adds) (exec (addOp a) st)).
    assert (bookmarks (exec (addOp a) st) = added a :: bookmarks st) as Hstep.
    { apply exec_add; [exact Ha|]. intros b Hb. apply Hnew; [left; reflexivity | exact Hb]. }
    rewrite IH; [| exact Hne | exact Hnd |].
    - rewrite Hstep. simpl. rewrite <- app_assoc. reflexivity.
    - rewrite Hstep. intros a' b Ha' [<-|Hb].
      + replace (url (added a)) with (addedUrl a) by (destruct a as [[? ?] ?]; reflexivity).
        intros E. apply Hfresh. rewrite E. apply in_map, Ha'.
      + apply Hnew; [right; exact Ha' | exact Hb]. }
  split; [exact Hrun|].
  intros Hso. rewrite Hrun. apply view_identity, Hso.
Qed.

Lemma adds_newest_first_witness :
  let a1 : Addition := (sampleDraft "https://b.com" "B", 200, 201) in
  let a2 : Addition := (sampleDraft "https://c.com" "C", 300, 301) in
  bookmarks (run [addOp a1; addOp a2] (initialState [sampleBookmark]))
  = [added a2; added a1; sampleBookmark].
Proof.
  intros a1 a2.
  refine (proj1 (adds_newest_first (λ _ _, 0) [a1; a2] (initialState [sampleBookmark])
                   "newest" _ _ _)).
  - repeat constructor; discriminate.
  - repeat constructor; simpl; intuition discriminate.
  - simpl. intros a b [<-|[<-|[]]] [<-|[]]; discriminate.
Defined.

(** ** The collection invariants along a run *)

Lemma NoDup_map_filter {A B : Type} (f : A → B) (p : A → bool) (l : list A) :
  List.NoDup (map f l) → List.NoDup (map f (List.filter p l)).
Proof.
  induction l as [|x l IH]; simpl; intros Hnd; [constructor|].
  apply List.NoDup_cons_iff in Hnd as [Hx Hnd].
  destruct (p x); simpl; [|apply IH, Hnd].
  constructor; [|apply IH, Hnd].
  intros Hin. apply Hx. apply in_map_iff in Hin as [y [Hy Hin]].
  apply filter_In in Hin as [Hin _]. rewrite <- Hy. apply in_map, Hin.
Qed.

Lemma replaceById_ids (i : string) (nb : Bookmark) (bs : list Bookmark) :
  id nb = i → map id (replaceById i nb bs) = map id bs.
Proof.
  intros Hnb. unfold replaceById. induction bs as [|b bs IH]; [reflexivity|].
  cbn [map]. rewrite IH. f_equal. unfold id_is.
  destruct (String.eqb_spec (id b) i); congruence.
Qed.

Lemma replaceById_absent (i : string) (nb : Bookmark) (bs : list Bookmark) :
  ¬ In i (map id bs) → replaceById i nb bs = bs.
Proof.
  unfold replaceById. induction bs as [|b bs IH]; intros Hni; [reflexivity|].
  cbn [map] in *. rewrite IH by (simpl in Hni; tauto). unfold id_is.
  destruct (String.eqb_spec (id b) i); [simpl in Hni; tauto | reflexivity].
Qed.

Lemma replaceById_urls (i u : string) (nb : Bookmark) (bs : list Bookmark) :
  url nb = u →
  List.NoDup (map id bs) → List.NoDup (map url bs) →
  (∀ b, In b bs → id b ≠ i → url b ≠ u) →
  List.NoDup (map url (replaceById i nb bs)).
Proof.
  intros Hnb. induction bs as [|b bs IH]; intros Hids Hurls Hother; [constructor|].
  apply List.NoDup_cons_iff in Hids as [Hid Hids].
  apply List.NoDup_cons_iff in Hurls as [Hurl Hurls].
  change (replaceById i nb (b :: bs))
    with ((if id_is (Some i) b then nb else b) :: replaceById i nb bs).
  destruct (id_is (Some i) b) eqn:E.
  - apply id_is_true in E. rewrite replaceById_absent by (rewrite <- E; exact Hid).
    simpl. constructor; [|exact Hurls].
    rewrite Hnb. intros Hin. apply in_map_iff in Hin as [b' [Hb' Hin]].
    apply (Hother b' (or_intror Hin)); [|exact Hb'].
    intros Hi. apply Hid. rewrite E, <- Hi. apply in_map, Hin.
  - apply id_is_false in E. simpl. constructor.
    + intros Hin. apply in_map_iff in Hin as [b' [Hb' Hin]].
      unfold replaceById in Hin. apply in_map_iff in Hin as [b0 [Hb0 Hin]].
      destruct (id_is (Some i) b0).
      * subst b'. rewrite Hnb in Hb'.
        apply (Hother b (or_introl eq_refl) E). congruence.
      * subst b'. apply Hurl. rewrite <- Hb'. apply in_map, Hin.
    + apply IH; [exact Hids | exact Hurls |].
      intros b' Hb'. apply Hother. right. exact Hb'.
Qed.

Lemma exec_preserves_unique (op : Op) (st : AppState Bookmark) :
  unique_ids (bookmarks st) → unique_urls (bookmarks st) →
  admissible op (bookmarks st) →
  unique_ids (bookmarks (exec op st)) ∧ unique_urls (bookmarks (exec op st)).
Proof.
  unfold unique_ids, unique_urls. intros Hids Hurls Hadm.
  destruct op as [e d t1 t2 | i c].
  - simpl. set (st1 := withDraft e d st).
    assert (bookmarks st1 = bookmarks st) as Hbs by reflexivity.
    assert (formData st1 = d) as Hfd by reflexivity.
    assert (editingId st1 = e) as Hed by reflexivity.
    destruct (String.eqb_spec (Form.url d) EmptyString) as [Hu|Hu].
    { unfold handleSave. rewrite Hfd, Hu. simpl. tauto. }
    rewrite handleSave_unfold by (rewrite Hfd; exact Hu).
    rewrite Hfd, Hed, Hbs.
    destruct (List.find (is_duplicate (Form.url d) e) (bookmarks st)) eqn:Hdup.
    { simpl. tauto. }
    pose proof (proj1 (find_none_iff _ _) Hdup) as Hnodup.
    destruct e as [i|]; simpl in Hadm.
    + rewrite (truthy_id_some i Hadm).
      destruct (List.find (id_is (Some i)) (bookmarks st)) as [old|]; [|simpl; tauto].
      simpl. split.
      * rewrite replaceById_ids by reflexivity. exact Hids.
      * apply (replaceById_urls i (Form.url d)); try assumption; [reflexivity|].
        intros b Hb Hne Hub. specialize (Hnodup b Hb).
        assert (is_duplicate (Form.url d) (Some i) b = true) as Hd
          by (apply is_duplicate_update; split; assumption).
        congruence.
    + simpl. split; constructor; try assumption.
      intros Hin. apply in_map_iff in Hin as [b [Hb Hin]].
      specialize (Hnodup b Hin).
      assert (is_duplicate (Form.url d) None b = true) as Hd
        by (apply is_duplicate_add; exact Hb).
      congruence.
  - simpl. unfold handleDelete. destruct c; simpl; [|tauto].
    split; apply NoDup_map_filter; assumption.
Qed.

(** C1 (as the handlers have it).  From a collection with pairwise
    distinct ids and pairwise distinct urls, every run of saves and deletes
    in which each add takes a clock reading whose decimal string is not
    yet an id of the collection and each update names a non-empty id ends
    in a collection with pairwise distinct ids and pairwise distinct
    urls. *)
Theorem run_preserves_unique (ops : list Op) (st : AppState Bookmark) :
  unique_ids (bookmarks st) → unique_urls (bookmarks st) →
  admissible_run ops st →
  unique_ids (bookmarks (run ops st)) ∧ unique_urls (bookmarks (run ops st)).
Proof.
  revert st. induction ops as [|op ops IH]; intros st Hids Hurls Hadm; [tauto|].
  destruct Hadm as [Hop Hrest].
  destruct (exec_preserves_unique op st Hids Hurls Hop) as [Hids' Hurls'].
  apply (IH (exec op st)); assumption.
Qed.

Lemma run_preserves_unique_witness :
  let ops := [Save None (sampleDraft "https://b.com" "B") 200 200;
              Save (Some "1") (sampleDraft "https://a.com/x" "A") 0 0;
              Delete "200" true;
              Save None (sampleDraft "https://c.com" "C") 300 300] in
  map id (bookmarks (run ops (initialState [sampleBookmark]))) = ["300"; "1"]
  ∧ unique_ids (bookmarks (run ops (initialState [sampleBookmark])))
  ∧ unique_urls (bookmarks (run ops (initialState [sampleBookmark]))).
Proof.
  intros ops. split; [reflexivity|].
  apply (run_preserves_unique ops (initialState [sampleBookmark])).
  - repeat constructor; simpl; tauto.
  - repeat constructor; simpl; tauto.
  - simpl. repeat split; try discriminate; intuition discriminate.
Defined.

(** C1 as stated fails: the id of a new record is the decimal string of
    one clock reading, and nothing compares it with the ids in use.  Two
    adds that read the same clock value give two records one id. *)
Lemma same_clock_reading_counterexample :
  let ops := [Save None (sampleDraft "https://a.com" "A") 1700000000000 1700000000000;
              Save None (sampleDraft "https://b.com" "B") 1700000000000 1700000000000] in
  let st := initialState [] in
  unique_ids (bookmarks st) ∧ unique_urls (bookmarks st)
  ∧ map id (bookmarks (run ops st)) = ["1700000000000"; "1700000000000"]
  ∧ ¬ unique_ids (bookmarks (run ops st)).
Proof.
  intros ops st. split; [constructor|]. split; [constructor|].
  split; [reflexivity|].
  unfold unique_ids. intros Hnd.
  apply List.NoDup_cons_iff in Hnd as [Hnotin _]. apply Hnotin. left. reflexivity.
Qed.

(** ** Import *)

Section ImportProperties.

Variable JSON_parse : string → option json.

(** C4.  When the text of the file does not parse, or parses to a value
    that is not an array, the import changes nothing but the alert it
    shows: the collection holds the same records in the same order, and
    one alert with an error message is raised.  For any text the
    collection after the import is either the one before or the whole
    parsed array, never a mixture. *)
Theorem importData_failure_keeps_collection (text : string) (st : AppState json) :
  ((JSON_parse text = None ∨ ∃ j, JSON_parse text = Some j ∧ Array_isArray j = false) →
   bookmarks (importData JSON_parse text st) = bookmarks st
   ∧ ∃ msg, importData JSON_parse text st = emit (Alert msg) st
            ∧ (msg = "Error parsing JSON." ∨ msg = "Invalid file format."))
  ∧ (bookmarks (importData JSON_parse text st) = bookmarks st
     ∨ JSON_parse text = Some (JArray (bookmarks (importData JSON_parse text st)))).
Proof.
  unfold importData. split.
  - intros [-> | [j [-> Hj]]].
    + split; [reflexivity|]. exists "Error parsing JSON.". auto.
    + destruct j; try discriminate;
        (split; [reflexivity|]; exists "Invalid file format."; auto).
  - destruct (JSON_parse text) as [[]|]; simpl; auto.
Qed.

(** C5 (as the handler has it).  The import accepts every parsed array,
    whatever its elements are, and then the collection is exactly that
    array, nothing of the prior collection remaining; it refuses, with
    the alert for an invalid format and the state otherwise unchanged,
    exactly the parsed values that are not arrays. *)
Theorem importData_accepts_arrays (text : string) (st : AppState json) (j : json) :
  JSON_parse text = Some j →
  (∀ items, j = JArray items →
     importData JSON_parse text st
     = emit (Alert "Import successful!") (setBookmarks items st))
  ∧ (Array_isArray j = false →
     importData JSON_parse text st = emit (Alert "Invalid file format.") st)
  ∧ (Array_isArray j = true ↔ ∃ items, bookmarks (importData JSON_parse text st) = items
                                        ∧ j = JArray items).
Proof.
  intros Hj. unfold importData. rewrite Hj. split; [|split].
  - intros items ->. reflexivity.
  - destruct j; try discriminate; reflexivity.
  - destruct j; simpl; split; try discriminate; eauto.
    all: intros [items' [_ H]]; discriminate.
Qed.

End ImportProperties.

Lemma importData_failure_keeps_collection_witness :
  let three := [JNumber 1; JNumber 2; JNumber 3] in
  let text := "{" +:+ quote +:+ "a" +:+ quote +:+ ":1}" in
  bookmarks (importData sampleParse text (initialState three)) = three
  ∧ ∃ msg, importData sampleParse text (initialState three)
           = emit (Alert msg) (initialState three)
           ∧ (msg = "Error parsing JSON." ∨ msg = "Invalid file format.").
Proof.
  intros three text.
  apply (proj1 (importData_failure_keeps_collection sampleParse text (initialState three))).
  right. exists (JObject [("a", JNumber 1)]). split; reflexivity.
Defined.

Lemma importData_accepts_arrays_witness :
  importData sampleParse "[{}]" (initialState [JNumber 7])
  = emit (Alert "Import successful!") (setBookmarks [JObject []] (initialState [JNumber 7])).
Proof.
  refine (proj1 (importData_accepts_arrays sampleParse "[{}]" (initialState [JNumber 7])
                   (JArray [JObject []]) _) [JObject []] _); reflexivity.
Defined.

(** C5 as stated fails: no element of the parsed array is looked at.  An
    array whose element is not an object, and one whose object has neither
    [url] nor [id], are imported with the success alert. *)
Lemma importData_unchecked_shape_counterexample :
  let st := initialState [JNumber 7] in
  forallb spec_minimal_shape [JNumber 1] = false
  ∧ forallb spec_minimal_shape [JObject []] = false
  ∧ importData sampleParse "[1]" st
    = emit (Alert "Import successful!") (setBookmarks [JNumber 1] st)
  ∧ importData sampleParse "[{}]" st
    = emit (Alert "Import successful!") (setBookmarks [JObject []] st).
Proof. repeat split; reflexivity. Qed.

(** ** Metadata lookup *)

Example validUrl_ex :
  validUrl "b.com/page" = "https://b.com/page"
  ∧ validUrl "HTTP://b.com" = "HTTP://b.com"
  ∧ validUrl "ftp://b.com" = "https://ftp://b.com".
Proof. repeat split; reflexivity. Qed.

Lemma validUrl_cases (u : string) :
  (has_scheme u = true → validUrl u = u)
  ∧ (has_scheme u = false → validUrl u = "https://" +:+ u).
Proof. unfold validUrl. split; intros ->; reflexivity. Qed.

Section EnrichmentProperties.

Variable hostname : string → option string.

Lemma fetchMetadata_failed (u : string) (reply : LookupReply) (st : AppState Bookmark) :
  u ≠ EmptyString →
  (∀ b, In b (bookmarks st) → is_duplicate u (editingId st) b = false) →
  lookupFails reply →
  fetchMetadata hostname u reply st
  = Return (setIsFetchingMeta false
              (lookupFailed hostname (validUrl u)
                 (emit (Lookup (validUrl u))
                    (setUrlError EmptyString
                       (setFetchError EmptyString (setIsFetchingMeta true st)))))).
Proof.
  intros Hu Hnodup Hfail. unfold fetchMetadata.
  apply truthy_true in Hu. rewrite Hu. simpl.
  apply find_none_iff in Hnodup. rewrite Hnodup.
  destruct reply as [|status [d|]]; simpl in *; try reflexivity.
  apply String.eqb_neq in Hfail. rewrite Hfail. reflexivity.
Qed.

Lemma has_scheme_spec (u : string) : has_scheme u = true ↔ scheme_prefixed u.
Proof.
  unfold has_scheme, scheme_prefixed.
  rewrite orb_true_iff, !startsWith_spec. reflexivity.
Qed.

Lemma validUrl_spec (u : string) :
  (scheme_prefixed u → validUrl u = u)
  ∧ (¬ scheme_prefixed u → validUrl u = "https://" +:+ u).
Proof.
  unfold validUrl. destruct (has_scheme u) eqn:E.
  - split; [reflexivity|]. intros H. exfalso. apply H, has_scheme_spec, E.
  - split; [|reflexivity]. intros H. apply has_scheme_spec in H. congruence.
Qed.

Lemma fetchMetadata_asks (u : string) (reply : LookupReply) (st st' : AppState Bookmark) :
  u ≠ EmptyString →
  (∀ b, In b (bookmarks st) → is_duplicate u (editingId st) b = false) →
  fetchMetadata hostname u reply st = Return st' →
  ∃ rest, log st' = log st ++ Lookup (validUrl u) :: rest.
Proof.
  intros Hu Hnodup. unfold fetchMetadata.
  apply truthy_true in Hu. rewrite Hu. simpl.
  apply find_none_iff in Hnodup. rewrite Hnodup.
  assert (∀ s : AppState Bookmark,
            log s = log st ++ [Lookup (validUrl u)] →
            Return (setIsFetchingMeta false (lookupFailed hostname (validUrl u) s))
            = Return st' →
            ∃ rest, log st' = log st ++ Lookup (validUrl u) :: rest) as Hfail.
  { intros s Hs [= <-]. unfold lookupFailed.
    destruct (hostname (validUrl u)); simpl; rewrite Hs, <- app_assoc; eexists; reflexivity. }
  destruct reply as [|status [d|]]; try (apply Hfail; reflexivity).
  destruct (String.eqb status "success"); [|apply Hfail; reflexivity].
  destruct (lookupSucceeded hostname (validUrl u) d _) as [s|e] eqn:Hs; [|discriminate].
  intros H. injection H as <-.
  assert (log s = log st ++ [Lookup (validUrl u)]) as Hl.
  { revert Hs. unfold lookupSucceeded.
    destruct (JsString.truthy (JsString.or_else _ _));
      [|destruct (hostname (validUrl u))];
      intros H; try discriminate H; injection H as <-; reflexivity. }
  exists []. simpl. rewrite Hl. reflexivity.
Qed.

(** C9 (as the handler has it).  For a non-empty URL that passes the
    duplicate guard (no other record has the URL as typed), the lookup is
    asked for the URL with [https://] put in front when it has no
    [http://] or [https://] prefix (any case), and for the URL as it is
    otherwise.  When the lookup fails and the host of that URL can be
    read, the draft gets that URL, keeps its title or, if it has none,
    takes the host as title, gets the favicon address of the
    favicon-by-domain service, and keeps its other fields; the failure
    goes to the console and the form shows no lookup error.  When the
    lookup fails and the host cannot be read, the draft is left as it was
    and the form shows the error for an invalid URL. *)
Theorem fetchMetadata_degraded (u : string) (reply : LookupReply) (st : AppState Bookmark) :
  u ≠ EmptyString →
  (∀ b, In b (bookmarks st) → is_duplicate u (editingId st) b = false) →
  let prev := formData st in
  (scheme_prefixed u → validUrl u = u)
  ∧ (¬ scheme_prefixed u → validUrl u = "https://" +:+ u)
  ∧ (∀ st', fetchMetadata hostname u reply st = Return st' →
     ∃ rest, log st' = log st ++ Lookup (validUrl u) :: rest)
  ∧ (lookupFails reply → ∀ h, hostname (validUrl u) = Some h →
     ∃ st', fetchMetadata hostname u reply st = Return st'
            ∧ formData st'
              = Form.mk (validUrl u) (JsString.or_else (Form.title prev) h)
                  (Form.description prev) (Form.category prev) (Form.tags prev)
                  (Form.notes prev) (Form.image prev)
                  (Some ("https://www.google.com/s2/favicons?domain="
                         +:+ validUrl u +:+ "&sz=64"))
            ∧ fetchError st' = EmptyString
            ∧ urlError st' = EmptyString
            ∧ log st'
              = log st ++ [Lookup (validUrl u); ConsoleError "Metadata fetch failed"]
            ∧ isFetchingMeta st' = false
            ∧ bookmarks st' = bookmarks st)
  ∧ (lookupFails reply → hostname (validUrl u) = None →
     ∃ st', fetchMetadata hostname u reply st = Return st'
            ∧ formData st' = prev
            ∧ fetchError st' = "Invalid URL format"
            ∧ log st'
              = log st ++ [Lookup (validUrl u); ConsoleError "Metadata fetch failed"]
            ∧ isFetchingMeta st' = false
            ∧ bookmarks st' = bookmarks st).
Proof.
  intros Hu Hnodup prev.
  split; [apply validUrl_spec|]. split; [apply validUrl_spec|].
  split; [intros st' Hrun; exact (fetchMetadata_asks u reply st st' Hu Hnodup Hrun)|].
  split.
  - intros Hfail h Hh.
    rewrite (fetchMetadata_failed u reply st Hu Hnodup Hfail). unfold lookupFailed.
    rewrite Hh. eexists. split; [reflexivity|].
    simpl. rewrite <- app_assoc. repeat split.
  - intros Hfail Hh.
    rewrite (fetchMetadata_failed u reply st Hu Hnodup Hfail). unfold lookupFailed.
    rewrite Hh. eexists. split; [reflexivity|].
    simpl. rewrite <- app_assoc. repeat split.
Qed.

End EnrichmentProperties.

Lemma fetchMetadata_degraded_witness :
  let st := withDraft None (sampleDraft "b.com/page" EmptyString)
              (initialState [sampleBookmark]) in
  (∃ st', fetchMetadata sampleHostname "b.com/page" Rejected st = Return st'
          ∧ Form.url (formData st') = "https://b.com/page"
          ∧ Form.title (formData st') = "b.com"
          ∧ fetchError st' = EmptyString)
  ∧ (∃ st', fetchMetadata sampleHostname "my site" (Body "fail" None) st = Return st'
            ∧ formData st' = formData st
            ∧ fetchError st' = "Invalid URL format").
Proof.
  intros st. split.
  - destruct (fetchMetadata_degraded sampleHostname "b.com/page" Rejected st)
      as (_ & _ & _ & Hok & _).
    + discriminate.
    + simpl. intros b [<-|[]]. reflexivity.
    + destruct (Hok I "b.com" eq_refl) as (st' & Hrun & Hfd & Hfe & _).
      exists st'. rewrite Hfd. repeat split; assumption.
  - destruct (fetchMetadata_degraded sampleHostname "my site" (Body "fail" None) st)
      as (_ & _ & _ & _ & Hbad).
    + discriminate.
    + simpl. intros b [<-|[]]. reflexivity.
    + destruct (Hbad I eq_refl) as (st' & Hrun & Hfd & Hfe & _).
      exists st'. repeat split; assumption.
Defined.

(** C9 as stated fails outside the failed lookup of a URL that passed the
    guards.  An empty URL ends the handler at once.  A URL that a record
    already has as typed is reported as a duplicate before any prefix is
    put on: the draft keeps the URL without prefix and no lookup is asked.
    And a reply with status [success] and a title is taken as it is, the
    URL never parsed: the draft gets the prefixed URL although its host
    cannot be read, and no error for an invalid URL is shown. *)
Lemma fetchMetadata_guards_counterexample :
  let blank := withDraft None (sampleDraft EmptyString EmptyString) (initialState []) in
  let taken := withDraft None (sampleDraft "b.com" EmptyString)
                 (initialState [sampleRecord "1" "b.com" 100]) in
  let odd := withDraft None (sampleDraft "my site" EmptyString)
               (initialState [sampleBookmark]) in
  let reply := Body "success" (Some (mkMicrolink (Some "Mine") None None None)) in
  fetchMetadata sampleHostname EmptyString Rejected blank = Return blank
  ∧ (¬ scheme_prefixed "b.com"
     ∧ ∃ st', fetchMetadata sampleHostname "b.com" Rejected taken = Return st'
              ∧ Form.url (formData st') = "b.com"
              ∧ urlError st' = "This URL is already saved."
              ∧ log st' = [])
  ∧ (sampleHostname (validUrl "my site") = None
     ∧ ∃ st', fetchMetadata sampleHostname "my site" reply odd = Return st'
              ∧ Form.url (formData st') = "https://my site"
              ∧ Form.title (formData st') = "Mine"
              ∧ fetchError st' = EmptyString).
Proof.
  intros blank taken odd reply. split; [reflexivity|]. split.
  - split.
    + intros H. apply has_scheme_spec in H. discriminate.
    + eexists. split; [reflexivity|]. repeat split.
  - split; [reflexivity|]. eexists. split; [reflexivity|]. repeat split.
Qed.

(** * Further properties *)

(** ** Trimming and lowercasing *)

Lemma chars_inj (s t : string) : chars s = chars t → s = t.
Proof.
  intros H. rewrite <- (String.string_of_list_ascii_of_string s),
    <- (String.string_of_list_ascii_of_string t).
  unfold chars in H. rewrite H. reflexivity.
Qed.

Lemma chars_rev_app (s t : string) :
  chars (String.rev_app s t) = rev (chars s) ++ chars t.
Proof.
  revert t. induction s as [|c s IH]; intros t; simpl; [reflexivity|].
  rewrite IH. simpl. rewrite <- app_assoc. reflexivity.
Qed.

Lemma chars_rev (s : string) : chars (String.rev s) = rev (chars s).
Proof. unfold String.rev. rewrite chars_rev_app. simpl. apply app_nil_r. Qed.

Lemma chars_append (s t : string) : chars (s +:+ t) = chars s ++ chars t.
Proof.
  induction s as [|c s IH]; [reflexivity|].
  rewrite append_cons. simpl. f_equal. exact IH.
Qed.

Lemma chars_trimStart (s : string) : chars (JsString.trimStart s) = strip (chars s).
Proof.
  induction s as [|c s IH]; simpl; [reflexivity|].
  destruct (JsString.is_space c); [exact IH | reflexivity].
Qed.

Lemma chars_trim (s : string) :
  chars (JsString.trim s) = rev (strip (rev (strip (chars s)))).
Proof.
  unfold JsString.trim, JsString.trimEnd.
  rewrite chars_rev, chars_trimStart, chars_rev, chars_trimStart. reflexivity.
Qed.

Lemma strip_strip (l : list Ascii.ascii) : strip (strip l) = strip l.
Proof.
  induction l as [|c l IH]; simpl; [reflexivity|].
  destruct (JsString.is_space c) eqn:E; [exact IH|]. simpl. rewrite E. reflexivity.
Qed.

Lemma strip_snoc (l : list Ascii.ascii) (c : Ascii.ascii) :
  JsString.is_space c = false → ∃ p, strip (l ++ [c]) = p ++ [c].
Proof.
  intros Hc. induction l as [|a l IH]; simpl.
  - rewrite Hc. exists []. reflexivity.
  - destruct (JsString.is_space a); [exact IH|]. exists (a :: l). reflexivity.
Qed.

Lemma strip_rev_strip_rev (l : list Ascii.ascii) :
  strip l = l → strip (rev (strip (rev l))) = rev (strip (rev l)).
Proof.
  destruct l as [|c l]; [reflexivity|]. simpl.
  destruct (JsString.is_space c) eqn:E.
  - intros H. exfalso.
    assert (length (strip l) ≤ length l)%nat as Hlen.
    { clear. induction l as [|a l IH]; simpl; [lia|].
      destruct (JsString.is_space a); simpl; lia. }
    rewrite H in Hlen. simpl in Hlen. lia.
  - intros _. destruct (strip_snoc (rev l) c E) as [p Hp].
    rewrite Hp, rev_app_distr. simpl. rewrite E. reflexivity.
Qed.

Lemma trim_idempotent (s : string) : JsString.trim (JsString.trim s) = JsString.trim s.
Proof.
  apply chars_inj. rewrite !chars_trim.
  set (y := strip (rev (strip (chars s)))).
  assert (strip (rev y) = rev y) as ->.
  { unfold y. apply strip_rev_strip_rev, strip_strip. }
  rewrite rev_involutive. unfold y. rewrite strip_strip. reflexivity.
Qed.

Lemma strip_In (l : list Ascii.ascii) (c : Ascii.ascii) : In c (strip l) → In c l.
Proof.
  induction l as [|a l IH]; simpl; [tauto|].
  destruct (JsString.is_space a); [right; apply IH; assumption | tauto].
Qed.

Lemma trim_In (s : string) (c : Ascii.ascii) : In c (chars (JsString.trim s)) → In c (chars s).
Proof.
  rewrite chars_trim. intros H.
  apply in_rev, strip_In, in_rev, strip_In in H. exact H.
Qed.

Lemma split_nonempty (sep : Ascii.ascii) (s : string) : JsString.split sep s ≠ [].
Proof.
  induction s as [|c s IH]; simpl; [discriminate|].
  destruct (Ascii.eqb c sep); [discriminate|].
  destruct (JsString.split sep s); discriminate.
Qed.

Lemma split_pieces (sep : Ascii.ascii) (s piece : string) :
  In piece (JsString.split sep s) → ¬ In sep (chars piece).
Proof.
  revert piece. induction s as [|c s IH]; simpl; intros piece.
  - intros [<-|[]]. simpl. tauto.
  - destruct (Ascii.eqb_spec c sep) as [->|Hne].
    + intros [<-|H]; [simpl; tauto | apply IH, H].
    + destruct (JsString.split sep s) as [|w ws]; simpl.
      * intros [<-|[]]. simpl. intros [E|[]]. congruence.
      * intros [<-|H].
        -- simpl. intros [E|E]; [congruence|].
           apply (IH w); [left; reflexivity | exact E].
        -- apply IH. right. exact H.
Qed.

(** ** Tags *)

Lemma tagsArray_all_clean (text : string) : Forall clean_tag (tagsArray text).
Proof.
  unfold tagsArray. apply List.Forall_forall. intros t Ht.
  apply filter_In in Ht as [Ht Htruthy].
  apply in_map_iff in Ht as [piece [<- Hpiece]].
  split; [apply truthy_true, Htruthy|]. split; [apply trim_idempotent|].
  intros Hc. apply trim_In in Hc. exact (split_pieces _ _ _ Hpiece Hc).
Qed.

(** X1.  Every tag a save stores is clean: not empty, with no white space
    at either end left for [trim] to strip, and without a comma. *)
Theorem tagsArray_clean (text : string) : Forall clean_tag (tagsArray text).
Proof.
  unfold tagsArray. apply List.Forall_forall. intros t Ht.
  apply filter_In in Ht as [Htrimmed Hkept].
  apply in_map_iff in Htrimmed as [piece [<- Hpiece]].
  split; [apply truthy_true, Hkept|].
  split; [apply trim_idempotent|].
  intros Hcomma. apply trim_In in Hcomma.
  exact (split_pieces JsString.comma text piece Hpiece Hcomma).
Qed.

Lemma split_no_sep (sep : Ascii.ascii) (t : string) :
  ¬ In sep (chars t) → JsString.split sep t = [t].
Proof.
  induction t as [|c t IH]; simpl; intros Hn; [reflexivity|].
  destruct (Ascii.eqb_spec c sep) as [->|Hne]; [tauto|].
  rewrite IH by tauto. reflexivity.
Qed.

Lemma split_app_sep (sep : Ascii.ascii) (t r : string) :
  ¬ In sep (chars t) →
  JsString.split sep (t +:+ String sep r) = t :: JsString.split sep r.
Proof.
  induction t as [|c t IH]; intros Hn.
  - rewrite append_empty. simpl. rewrite Ascii.eqb_refl. reflexivity.
  - rewrite append_cons. simpl in *.
    destruct (Ascii.eqb_spec c sep) as [->|Hne]; [tauto|].
    rewrite IH by tauto. reflexivity.
Qed.

Lemma trim_space_cons (t : string) :
  JsString.trim (String (Ascii.ascii_of_nat 32) t) = JsString.trim t.
Proof. reflexivity. Qed.

Lemma tagsArray_join_aux (ts : list string) (t : string) :
  Forall clean_tag (t :: ts) →
  List.filter JsString.truthy
    (map JsString.trim (JsString.split JsString.comma (JsString.join ", " (t :: ts))))
  = t :: ts.
Proof.
  revert t. induction ts as [|u ts IH]; intros t Hclean.
  - apply Forall_cons in Hclean as [(Hne & Htrim & Hcomma) _]. simpl.
    rewrite split_no_sep by exact Hcomma. simpl. rewrite Htrim.
    apply truthy_true in Hne. rewrite Hne. reflexivity.
  - apply Forall_cons in Hclean as [(Hne & Htrim & Hcomma) Hrest].
    change (JsString.join ", " (t :: u :: ts))
      with (t +:+ ", " +:+ JsString.join ", " (u :: ts)).
    change (", " +:+ JsString.join ", " (u :: ts))
      with (String JsString.comma
              (String (Ascii.ascii_of_nat 32) (JsString.join ", " (u :: ts)))).
    rewrite split_app_sep by exact Hcomma.
    cbn [map List.filter]. rewrite Htrim.
    apply truthy_true in Hne. rewrite Hne. f_equal.
    specialize (IH u Hrest).
    destruct (JsString.split JsString.comma (JsString.join ", " (u :: ts)))
      as [|w ws] eqn:Hsplit; [exfalso; exact (split_nonempty _ _ Hsplit)|].
    assert (JsString.split JsString.comma
              (String (Ascii.ascii_of_nat 32) (JsString.join ", " (u :: ts)))
            = String (Ascii.ascii_of_nat 32) w :: ws) as ->.
    { cbn [JsString.split]. rewrite Hsplit. reflexivity. }
    cbn [map]. rewrite trim_space_cons. exact IH.
Qed.

(** X2.  The text the edit form shows for a list of clean tags parses
    back to that list; so the tags a save stored come back unchanged
    when the record is opened and saved again, whatever text they were
    first parsed from. *)
Theorem tagsArray_join_roundtrip (ts : list string) (text : string) :
  (Forall clean_tag ts → tagsArray (JsString.join ", " ts) = ts)
  ∧ tagsArray (JsString.join ", " (tagsArray text)) = tagsArray text.
Proof.
  assert (∀ l, Forall clean_tag l → tagsArray (JsString.join ", " l) = l) as H.
  { intros [|t l] Hl; [reflexivity|]. apply tagsArray_join_aux, Hl. }
  split; [apply H | apply H, tagsArray_all_clean].
Qed.

Lemma tagsArray_join_roundtrip_witness :
  tagsArray (JsString.join ", " ["react"; "dev tools"; "news"]) = ["react"; "dev tools"; "news"].
Proof.
  apply (proj1 (tagsArray_join_roundtrip ["react"; "dev tools"; "news"] EmptyString)).
  repeat constructor; try discriminate; simpl; intuition discriminate.
Defined.

(** ** Opening a record and saving it again *)

Lemma tagsArray_join_clean (ts : list string) :
  Forall clean_tag ts → tagsArray (JsString.join ", " ts) = ts.
Proof. intros H. destruct ts as [|t ts]; [reflexivity | apply tagsArray_join_aux, H]. Qed.

Lemma replaceById_self (b : Bookmark) (bs : list Bookmark) :
  (∀ b', In b' bs → id b' = id b → b' = b) → replaceById (id b) b bs = bs.
Proof.
  unfold replaceById. induction bs as [|x bs IH]; intros H; [reflexivity|].
  cbn [map]. rewrite IH by (intros b' Hb'; apply H; right; exact Hb').
  f_equal. destruct (id_is (Some (id b)) x) eqn:E; [|reflexivity].
  apply id_is_true in E. symmetry. apply H; [left; reflexivity | exact E].
Qed.

Lemma or_null_id (x : option string) : x ≠ Some EmptyString → or_null x = x.
Proof. destruct x as [[|c s]|]; simpl; congruence. Qed.

Lemma reopened_record (b : Bookmark) :
  saved_shape b →
  newBookmark (id b) (createdAt b)
    (Form.mk (url b) (title b) (or_empty (description b))
       (JsString.or_else (category b) "Uncategorized")
       (JsString.join ", " (tags b)) (or_empty (notes b))
       (or_null (image b)) (or_null (favicon b)))
    (isFavorite b)
  = b.
Proof.
  intros ([d Hd] & [n Hn] & Hcat & Htags & Himg & Hfav).
  destruct b as [i t u ti de ca ta no im fa fv]. simpl in *. subst de no.
  unfold newBookmark. simpl.
  rewrite (tagsArray_join_clean ta Htags), (or_null_id im Himg), (or_null_id fa Hfav).
  unfold JsString.or_else. apply truthy_true in Hcat. rewrite Hcat. reflexivity.
Qed.

(** X3.  Opening the edit form on a stored record of the shape a save
    gives (in a collection with distinct ids and distinct urls, the
    record's id and url not empty) and saving without touching a field
    is accepted and commits the collection exactly as it was: same
    records, same order, no field changed. *)
Theorem reopen_then_save_is_identity (t1 t2 : Z) (st : AppState Bookmark) (b : Bookmark) :
  In b (bookmarks st) →
  unique_ids (bookmarks st) → unique_urls (bookmarks st) →
  id b ≠ EmptyString → url b ≠ EmptyString →
  saved_shape b →
  commits (openModal (Some b) st) (bookmarks st)
    (handleSave t1 t2 (openModal (Some b) st)).
Proof.
  intros Hin Hids Hurls Hid Hurl Hshape.
  pose proof (handleSave_update_commits t1 t2 (openModal (Some b) st) (id b) b) as H.
  cbn [openModal formData editingId bookmarks setIsModalOpen setFormData setEditingId
       setIsCategoryDropdownOpen setFetchError setUrlError Form.url] in H.
  rewrite (reopened_record b Hshape) in H.
  rewrite replaceById_self in H.
  - apply H; [exact Hurl | reflexivity | exact Hid | |].
    + apply find_unique_id; [exact Hids | exact Hin | reflexivity].
    + intros b' Hb' Hu. f_equal.
      apply (NoDup_map_inj_on url (bookmarks st) Hurls); assumption.
  - intros b' Hb' Hi. apply (NoDup_map_inj_on id (bookmarks st) Hids); assumption.
Qed.

Lemma reopen_then_save_is_identity_witness :
  let b := newBookmark "1" 100 (Form.mk "https://a.com" "A" "about" "Dev" "x, y z" "n" None None)
             true in
  let st := initialState [sampleRecord "2" "https://b.com" 200; b] in
  commits (openModal (Some b) st) (bookmarks st) (handleSave 7 7 (openModal (Some b) st)).
Proof.
  intros b st. apply reopen_then_save_is_identity.
  - right. left. reflexivity.
  - repeat constructor; simpl; intuition discriminate.
  - repeat constructor; simpl; intuition discriminate.
  - discriminate.
  - discriminate.
  - split; [eexists; reflexivity|]. split; [eexists; reflexivity|].
    split; [discriminate|]. split; [apply tagsArray_all_clean|].
    split; discriminate.
Defined.

(** X4.  A save in edit mode for an id that no record has never changes
    the collection: with a non-empty URL it reports a duplicate when
    some record has that URL and throws a [TypeError] otherwise. *)
Theorem handleSave_missing_id (t1 t2 : Z) (st : AppState Bookmark) (i : string) :
  editingId st = Some i → i ≠ EmptyString →
  ¬ In i (map id (bookmarks st)) →
  Form.url (formData st) ≠ EmptyString →
  ((∃ b, In b (bookmarks st) ∧ url b = Form.url (formData st)) →
   rejects_DuplicateURL st (handleSave t1 t2 st))
  ∧ ((∀ b, In b (bookmarks st) → url b ≠ Form.url (formData st)) →
     handleSave t1 t2 st = Throw "TypeError").
Proof.
  intros He Hi Hmissing Hu.
  assert (∀ b, In b (bookmarks st) → id b ≠ i) as Hother.
  { intros b Hb E. apply Hmissing. rewrite <- E. apply in_map, Hb. }
  split.
  - intros [b [Hb Hub]]. apply (rejects_iff_duplicate t1 t2 st Hu).
    exists b. split; [exact Hb|]. rewrite He. apply is_duplicate_update. auto.
  - intros Hnew. rewrite (handleSave_unfold t1 t2 st Hu), He.
    assert (List.find (is_duplicate (Form.url (formData st)) (Some i)) (bookmarks st) = None)
      as ->.
    { apply find_none_iff. intros b Hb.
      destruct (is_duplicate _ _ b) eqn:E; [|reflexivity].
      apply is_duplicate_update in E as [E _]. exfalso. exact (Hnew b Hb E). }
    rewrite (truthy_id_some i Hi).
    assert (List.find (id_is (Some i)) (bookmarks st) = None) as ->; [|reflexivity].
    apply find_none_iff. intros b Hb. apply id_is_false, Hother, Hb.
Qed.

Lemma handleSave_missing_id_witness :
  handleSave 0 0 (withDraft (Some "9") (sampleDraft "https://z.com" "Z")
                    (initialState [sampleBookmark]))
  = Throw "TypeError".
Proof.
  refine (proj2 (handleSave_missing_id 0 0 _ "9" _ _ _ _) _).
  - reflexivity.
  - discriminate.
  - simpl. intuition discriminate.
  - discriminate.
  - simpl. intros b [<-|[]]. discriminate.
Defined.

(** ** Favorites and deletion *)

Lemma toggle_twice (i : string) (bs : list Bookmark) :
  bookmarks (toggleFavorite i (toggleFavorite i (initialState bs))) = bs.
Proof.
  cbn [toggleFavorite bookmarks setBookmarks initialState].
  rewrite map_map. rewrite <- (map_id bs) at 2. apply map_ext. intros b.
  destruct (String.eqb (id b) i) eqn:E; cbn [id]; rewrite E; [|reflexivity].
  destruct b. cbn. rewrite negb_involutive. reflexivity.
Qed.

Lemma toggle_absent (i : string) (st : AppState Bookmark) :
  ¬ In i (map id (bookmarks st)) → toggleFavorite i st = st.
Proof.
  destruct st as [bs mo ed dd fd fm fe ue lg].
  unfold toggleFavorite, setBookmarks.
  cbn [bookmarks isModalOpen editingId isCategoryDropdownOpen formData
       isFetchingMeta fetchError urlError log].
  intros Hni. f_equal.
  transitivity (map (λ b : Bookmark, b) bs); [|apply map_id].
  apply map_ext_in. intros b Hb.
  destruct (String.eqb_spec (id b) i) as [E|E]; [|reflexivity].
  exfalso. apply Hni. rewrite <- E. apply in_map, Hb.
Qed.

(** X5.  Toggling the favorite mark of an id twice gives the state back
    as it was. *)
Theorem toggleFavorite_involutive (i : string) (st : AppState Bookmark) :
  toggleFavorite i (toggleFavorite i st) = st.
Proof.
  destruct st as [bs mo ed dd fd fm fe ue lg].
  pose proof (toggle_twice i bs) as H.
  unfold toggleFavorite, setBookmarks.
  cbn [bookmarks isModalOpen editingId isCategoryDropdownOpen formData
       isFetchingMeta fetchError urlError log].
  f_equal. exact H.
Qed.

(** X6.  Toggling the favorite mark of an id keeps every record in its
    place with every field but [isFavorite], which is flipped exactly in
    the records with that id; it changes nothing when no record has the
    id, and it keeps ids and urls pairwise distinct. *)
Theorem toggleFavorite_frame (i : string) (st : AppState Bookmark) :
  let st' := toggleFavorite i st in
  (∀ (n : nat) (b : Bookmark), bookmarks st !! n = Some b →
     bookmarks st' !! n
     = Some (mkBookmark (id b) (createdAt b) (url b) (title b) (description b)
               (category b) (tags b) (notes b) (image b) (favicon b)
               (if String.eqb (id b) i then negb (isFavorite b) else isFavorite b)))
  ∧ length (bookmarks st') = length (bookmarks st)
  ∧ map id (bookmarks st') = map id (bookmarks st)
  ∧ map url (bookmarks st') = map url (bookmarks st)
  ∧ map createdAt (bookmarks st') = map createdAt (bookmarks st)
  ∧ (¬ In i (map id (bookmarks st)) → st' = st)
  ∧ (unique_ids (bookmarks st) → unique_ids (bookmarks st'))
  ∧ (unique_urls (bookmarks st) → unique_urls (bookmarks st')).
Proof.
  intros st'.
  assert (∀ f : Bookmark → string, (∀ b, f (mkBookmark (id b) (createdAt b) (url b) (title b)
            (description b) (category b) (tags b) (notes b) (image b) (favicon b)
            (negb (isFavorite b))) = f b) →
          map f (bookmarks st') = map f (bookmarks st)) as Hmap.
  { intros f Hf. subst st'. cbn [toggleFavorite bookmarks setBookmarks].
    rewrite map_map. apply map_ext. intros b.
    destruct (String.eqb (id b) i); [apply Hf | reflexivity]. }
  assert (map id (bookmarks st') = map id (bookmarks st)) as Hids
    by (apply Hmap; reflexivity).
  assert (map url (bookmarks st') = map url (bookmarks st)) as Hurls
    by (apply Hmap; reflexivity).
  split; [|split; [|split; [|split; [|split; [|split; [|split]]]]]].
  - intros n b Hb. subst st'. cbn [toggleFavorite bookmarks setBookmarks].
    rewrite (lookup_map _ _ _ _ Hb). destruct (String.eqb (id b) i); [reflexivity|].
    destruct b; reflexivity.
  - subst st'. cbn [toggleFavorite bookmarks setBookmarks]. apply length_map.
  - exact Hids.
  - exact Hurls.
  - subst st'. cbn [toggleFavorite bookmarks setBookmarks].
    rewrite map_map. apply map_ext. intros b.
    destruct (String.eqb (id b) i); reflexivity.
  - intros Hni. apply toggle_absent, Hni.
  - unfold unique_ids. rewrite Hids. tauto.
  - unfold unique_urls. rewrite Hurls. tauto.
Qed.

Lemma filter_app_middle (b : Bookmark) (l1 l2 : list Bookmark) :
  List.NoDup (map id (l1 ++ b :: l2)) →
  List.filter (λ x, negb (String.eqb (id x) (id b))) (l1 ++ b :: l2) = l1 ++ l2.
Proof.
  intros Hnd.
  assert (∀ l, (∀ x, In x l → id x ≠ id b) →
               List.filter (λ x, negb (String.eqb (id x) (id b))) l = l) as Hkeep.
  { induction l as [|x l IH]; intros H; simpl; [reflexivity|].
    destruct (String.eqb_spec (id x) (id b)) as [E|E].
    - exfalso. exact (H x (or_introl eq_refl) E).
    - simpl. f_equal. apply IH. intros y Hy. apply H. right. exact Hy. }
  rewrite map_app in Hnd. simpl in Hnd.
  apply NoDup_remove in Hnd as [_ Hnotin].
  rewrite List.filter_app. simpl. rewrite String.eqb_refl. simpl.
  rewrite !Hkeep; [reflexivity | |].
  - intros x Hx E. apply Hnotin, in_or_app. right. rewrite <- E. apply in_map, Hx.
  - intros x Hx E. apply Hnotin, in_or_app. left. rewrite <- E. apply in_map, Hx.
Qed.

Lemma filter_twice {A : Type} (p : A → bool) (l : list A) :
  List.filter p (List.filter p l) = List.filter p l.
Proof.
  induction l as [|x l IH]; simpl; [reflexivity|].
  destruct (p x) eqn:E; simpl; [rewrite E, IH; reflexivity | exact IH].
Qed.

Lemma handleDelete_absent (i : string) (bs : list Bookmark) :
  ¬ In i (map id bs) → List.filter (λ b, negb (String.eqb (id b) i)) bs = bs.
Proof.
  induction bs as [|x l IH]; simpl; intros Hni; [reflexivity|].
  destruct (String.eqb_spec (id x) i) as [E|E].
  - exfalso. apply Hni. left. exact E.
  - simpl. f_equal. apply IH. intros H. apply Hni. right. exact H.
Qed.

(** X7.  A declined delete changes nothing.  A confirmed delete keeps, in
    their order, exactly the records with another id; it changes nothing
    when no record has the id, deleting again changes nothing more, and
    in a collection with distinct ids it takes out the one record with
    that id and nothing else. *)
Theorem handleDelete_removes (i : string) (st : AppState Bookmark) :
  handleDelete i false st = st
  ∧ (∀ b, In b (bookmarks (handleDelete i true st)) ↔ In b (bookmarks st) ∧ id b ≠ i)
  ∧ (¬ In i (map id (bookmarks st)) → bookmarks (handleDelete i true st) = bookmarks st)
  ∧ handleDelete i true (handleDelete i true st) = handleDelete i true st
  ∧ (∀ l1 b l2, bookmarks st = l1 ++ b :: l2 → id b = i → unique_ids (bookmarks st) →
       bookmarks (handleDelete i true st) = l1 ++ l2).
Proof.
  split; [reflexivity|]. split; [|split; [|split]].
  - intros b. cbn [handleDelete bookmarks setBookmarks]. rewrite filter_In.
    rewrite negb_true_iff, String.eqb_neq. reflexivity.
  - intros Hni. cbn [handleDelete bookmarks setBookmarks].
    apply handleDelete_absent, Hni.
  - destruct st as [bs mo ed dd fd fm fe ue lg].
    unfold handleDelete, setBookmarks.
    cbn [bookmarks isModalOpen editingId isCategoryDropdownOpen formData
         isFetchingMeta fetchError urlError log].
    f_equal. apply filter_twice.
  - intros l1 b l2 Hbs <- Hnd. cbn [handleDelete bookmarks setBookmarks].
    unfold unique_ids in Hnd. rewrite Hbs in *.
    apply filter_app_middle, Hnd.
Qed.

Lemma handleDelete_removes_witness :
  bookmarks (handleDelete "2" true
               (initialState [sampleBookmark; sampleRecord "2" "https://b.com" 200;
                              sampleRecord "3" "https://c.com" 300]))
  = [sampleBookmark] ++ [sampleRecord "3" "https://c.com" 300].
Proof.
  refine (proj2 (proj2 (proj2 (proj2 (handleDelete_removes "2" _))))
            [sampleBookmark] (sampleRecord "2" "https://b.com" 200)
            [sampleRecord "3" "https://c.com" 300] _ _ _).
  - reflexivity.
  - reflexivity.
  - repeat constructor; simpl; intuition discriminate.
Defined.

(** ** The normalized URL *)

(** X8.  The URL the lookup works on always has an [http://] or
    [https://] prefix, and normalizing it again changes nothing. *)
Theorem validUrl_idempotent (u : string) :
  has_scheme (validUrl u) = true ∧ validUrl (validUrl u) = validUrl u.
Proof.
  assert (has_scheme (validUrl u) = true) as H.
  { unfold validUrl. destruct (has_scheme u) eqn:E; [exact E | reflexivity]. }
  split; [exact H|]. unfold validUrl at 1. rewrite H. reflexivity.
Qed.

(** ** What the view shows *)

Section ViewProperties.

Variable localeCompare : string → string → Z.

Lemma categoryFilter_In (cat : string) (bs : list Bookmark) (b : Bookmark) :
  In b (categoryFilter cat bs)
  ↔ In b bs
    ∧ (cat = "Favorites" → isFavorite b = true)
    ∧ (cat ≠ "Favorites" → cat ≠ "All" → category b = cat).
Proof.
  unfold categoryFilter.
  destruct (String.eqb_spec cat "Favorites") as [->|Hf].
  - rewrite filter_In. intuition congruence.
  - destruct (String.eqb_spec cat "All") as [->|Ha]; simpl.
    + intuition congruence.
    + rewrite filter_In, String.eqb_eq. intuition congruence.
Qed.

Lemma searchFilter_In (q : string) (l : list Bookmark) (b : Bookmark) :
  In b (searchFilter q l)
  ↔ In b l ∧ (JsString.trim q ≠ EmptyString → hit (JsString.toLowerCase q) b).
Proof.
  unfold searchFilter. destruct (JsString.truthy (JsString.trim q)) eqn:E.
  - rewrite filter_In, matches_hit.
    + apply truthy_true in E. tauto.
    + apply truthy_true. rewrite toLowerCase_truthy. apply trim_truthy, E.
  - apply truthy_false in E. split; [intros ? | intros [? _]]; auto.
    split; [assumption | congruence].
Qed.

Lemma filter_length_le {A : Type} (p : A → bool) (l : list A) :
  (length (List.filter p l) ≤ length l)%nat.
Proof. induction l as [|x l IH]; simpl; [lia|]. destruct (p x); simpl; lia. Qed.

(** X9.  The view shows a record exactly when it is in the collection,
    passes the category (a favorite for [Favorites]; any record for
    [All]; otherwise a record of exactly that category) and, unless the
    query is blank, is hit by the lowercased query.  It shows no record
    more often than the collection holds it: it is a rearrangement of the
    filtered list, never longer than the collection, and for [All] with a
    blank query a rearrangement of the whole collection. *)
Theorem view_shows (bs : list Bookmark) (cat q so : string) :
  (∀ b, In b (view localeCompare bs cat q so)
        ↔ In b bs
          ∧ (cat = "Favorites" → isFavorite b = true)
          ∧ (cat ≠ "Favorites" → cat ≠ "All" → category b = cat)
          ∧ (JsString.trim q ≠ EmptyString → hit (JsString.toLowerCase q) b))
  ∧ Permutation (view localeCompare bs cat q so) (searchFilter q (categoryFilter cat bs))
  ∧ (length (view localeCompare bs cat q so) ≤ length bs)%nat
  ∧ (cat = "All" → JsString.trim q = EmptyString →
     Permutation (view localeCompare bs cat q so) bs).
Proof.
  assert (Permutation (view localeCompare bs cat q so)
            (searchFilter q (categoryFilter cat bs))) as HP by apply sort_by_perm.
  split; [|split; [exact HP|split]].
  - intros b. split.
    + intros H. apply (Permutation_in _ HP) in H.
      apply searchFilter_In in H as [H Hq]. apply categoryFilter_In in H. tauto.
    + intros (H1 & H2 & H3 & H4).
      apply (Permutation_in _ (Permutation_sym HP)).
      apply searchFilter_In. split; [|exact H4]. apply categoryFilter_In. tauto.
  - rewrite (Permutation_length HP). unfold searchFilter, categoryFilter.
    repeat match goal with
           | |- context [if ?c then _ else _] => destruct c
           end;
      repeat (etransitivity; [apply filter_length_le|]); lia.
  - intros -> Hq. rewrite HP. unfold searchFilter. rewrite Hq. reflexivity.
Qed.

Lemma insert_by_filter_key {A : Type} (cmp : A → A → Z) (k : A → Z) (t : Z)
    (x : A) (s : list A) :
  (∀ a b, 0 < cmp a b → k a ≠ k b) →
  List.filter (λ a, k a =? t) (insert_by cmp x s) = List.filter (λ a, k a =? t) (x :: s).
Proof.
  intros Hcmp. induction s as [|y s IH]; [reflexivity|].
  cbn [insert_by]. destruct (Z.ltb_spec 0 (cmp x y)) as [Hlt|Hle]; [|reflexivity].
  apply Hcmp in Hlt. cbn [List.filter] in *. rewrite IH.
  destruct (Z.eqb_spec (k x) t), (Z.eqb_spec (k y) t); try reflexivity. congruence.
Qed.

Lemma sort_by_filter_key {A : Type} (cmp : A → A → Z) (k : A → Z) (t : Z) (l : list A) :
  (∀ a b, 0 < cmp a b → k a ≠ k b) →
  List.filter (λ a, k a =? t) (sort_by cmp l) = List.filter (λ a, k a =? t) l.
Proof.
  intros Hcmp. induction l as [|x l IH]; [reflexivity|].
  change (sort_by cmp (x :: l)) with (insert_by cmp x (sort_by cmp l)).
  rewrite (insert_by_filter_key cmp k t x _ Hcmp). cbn [List.filter]. rewrite IH.
  reflexivity.
Qed.

(** X10.  Under [date-desc] the whole view runs from the largest
    [createdAt] down, every record at least as new as all after it; under
    [date-asc] it runs from the smallest up. *)
Theorem view_sorted_by_date (bs : list Bookmark) (cat q : string) :
  StronglySorted (λ a b, createdAt b <= createdAt a)
    (view localeCompare bs cat q "date-desc")
  ∧ StronglySorted (λ a b, createdAt a <= createdAt b)
      (view localeCompare bs cat q "date-asc").
Proof.
  unfold view. rewrite date_desc_comparator, date_asc_comparator. split.
  - assert (∀ a b : Bookmark,
              createdAt b - createdAt a = (λ x, - createdAt x) a - (λ x, - createdAt x) b)
      as Hkey by (intros; simpl; lia).
    pose proof (sort_by_sorted (λ a b, createdAt b - createdAt a) (λ a, - createdAt a)
                  Hkey (searchFilter q (categoryFilter cat bs))) as H.
    induction H as [|x s Hs IH Hx]; constructor; [exact IH|].
    eapply Forall_impl; [exact Hx|]. simpl. intros. lia.
  - exact (sort_by_sorted (λ a b, createdAt a - createdAt b) createdAt
             (λ a b, eq_refl) (searchFilter q (categoryFilter cat bs))).
Qed.

(** X11.  Both date sorts are stable: for every time stamp, the shown
    records with that [createdAt] come in the order the collection has
    them. *)
Theorem view_date_sorts_stable (bs : list Bookmark) (cat q : string) (t : Z) :
  List.filter (λ b, createdAt b =? t) (view localeCompare bs cat q "date-desc")
  = List.filter (λ b, createdAt b =? t) (searchFilter q (categoryFilter cat bs))
  ∧ List.filter (λ b, createdAt b =? t) (view localeCompare bs cat q "date-asc")
    = List.filter (λ b, createdAt b =? t) (searchFilter q (categoryFilter cat bs)).
Proof.
  unfold view. rewrite date_desc_comparator, date_asc_comparator.
  split; apply sort_by_filter_key; intros a b; lia.
Qed.

Lemma insert_by_front {A : Type} (cmp : A → A → Z) (x : A) (s : list A) :
  (∀ y, In y s → cmp x y <= 0) → insert_by cmp x s = x :: s.
Proof.
  destruct s as [|y s]; [reflexivity|]. intros H. cbn [insert_by].
  specialize (H y (or_introl eq_refl)).
  destruct (Z.ltb_spec 0 (cmp x y)); [lia | reflexivity].
Qed.

(** X12.  After an accepted add whose [createdAt] reading is not earlier
    than any stored [createdAt], the default view (category [All], blank
    query, [date-desc]) shows the new record first, followed by what it
    showed before the add, ties with the new record included. *)
Theorem add_shows_first (t1 t2 : Z) (st : AppState Bookmark) :
  editingId st = None →
  Form.url (formData st) ≠ EmptyString →
  (∀ b, In b (bookmarks st) → url b ≠ Form.url (formData st)) →
  (∀ b, In b (bookmarks st) → createdAt b <= t2) →
  ∃ st', handleSave t1 t2 st = Return st'
         ∧ view localeCompare (bookmarks st') "All" EmptyString "date-desc"
           = newBookmark (JsString.of_Z t1) t2 (formData st) false
             :: view localeCompare (bookmarks st) "All" EmptyString "date-desc".
Proof.
  intros He Hu Hnew Hlate.
  rewrite (handleSave_unfold t1 t2 st Hu), He.
  assert (List.find (is_duplicate (Form.url (formData st)) None) (bookmarks st) = None) as ->.
  { apply find_none_iff. intros b Hb.
    destruct (is_duplicate _ _ b) eqn:E; [|reflexivity].
    apply is_duplicate_add in E. exfalso. exact (Hnew b Hb E). }
  eexists. split; [reflexivity|].
  cbn [truthy_id bookmarks closeModal setUrlError setFetchError setIsModalOpen setBookmarks].
  unfold view. cbn [categoryFilter searchFilter String.eqb Ascii.eqb Bool.eqb negb
                    JsString.trim JsString.trimStart JsString.trimEnd JsString.truthy].
  change (searchFilter EmptyString (categoryFilter "All" ?l)) with l.
  rewrite !date_desc_comparator.
  change (sort_by ?c (?x :: ?l)) with (insert_by c x (sort_by c l)).
  apply insert_by_front. intros y Hy.
  eapply Permutation_in in Hy; [|apply sort_by_perm].
  specialize (Hlate y Hy). simpl. lia.
Qed.

End ViewProperties.

Lemma add_shows_first_witness :
  let st := withDraft None (sampleDraft "https://b.com" "B") (initialState [sampleBookmark]) in
  ∃ st', handleSave 100 100 st = Return st'
         ∧ map id (view (λ _ _, 0) (bookmarks st') "All" EmptyString "date-desc")
           = ["100"; "1"].
Proof.
  intros st.
  destruct (add_shows_first (λ _ _, 0) 100 100 st) as (st' & Hrun & Hview).
  - reflexivity.
  - discriminate.
  - simpl. intros b [<-|[]]. discriminate.
  - simpl. intros b [<-|[]]. simpl. lia.
  - exists st'. split; [exact Hrun|].
    rewrite Hview. reflexivity.
Defined.

(** ** The query's case *)

Lemma is_space_lower_char (c : Ascii.ascii) :
  JsString.is_space (JsString.lower_char c) = JsString.is_space c.
Proof. destruct c as [[] [] [] [] [] [] [] []]; reflexivity. Qed.

Lemma lower_char_idempotent (c : Ascii.ascii) :
  JsString.lower_char (JsString.lower_char c) = JsString.lower_char c.
Proof. destruct c as [[] [] [] [] [] [] [] []]; reflexivity. Qed.

Lemma toLowerCase_idempotent (s : string) :
  JsString.toLowerCase (JsString.toLowerCase s) = JsString.toLowerCase s.
Proof.
  induction s as [|c s IH]; simpl; [reflexivity|].
  rewrite lower_char_idempotent, IH. reflexivity.
Qed.

Lemma chars_toLowerCase (s : string) :
  chars (JsString.toLowerCase s) = map JsString.lower_char (chars s).
Proof. induction s as [|c s IH]; simpl; [reflexivity|]. f_equal. exact IH. Qed.

Lemma strip_nil (l : list Ascii.ascii) :
  strip l = [] ↔ forallb JsString.is_space l = true.
Proof.
  induction l as [|c l IH]; simpl; [tauto|].
  destruct (JsString.is_space c); simpl; [exact IH|]. split; discriminate.
Qed.

Lemma forallb_rev {A : Type} (p : A → bool) (l : list A) :
  forallb p (rev l) = forallb p l.
Proof.
  induction l as [|x l IH]; simpl; [reflexivity|].
  rewrite forallb_app, IH. simpl. rewrite andb_true_r. apply andb_comm.
Qed.

(** A string is blank for [trim] exactly when all its code units are
    white space. *)
Lemma trim_blank (s : string) :
  JsString.truthy (JsString.trim s) = negb (forallb JsString.is_space (chars s)).
Proof.
  assert (JsString.trim s = EmptyString ↔ forallb JsString.is_space (chars s) = true) as H.
  { split.
    - intros E. apply (f_equal chars) in E. rewrite chars_trim in E. simpl in E.
      apply (f_equal (@rev _)) in E. rewrite rev_involutive in E. simpl in E.
      apply strip_nil in E. rewrite forallb_rev in E.
      apply strip_nil. rewrite <- strip_strip. apply strip_nil, E.
    - intros E. apply chars_inj. rewrite chars_trim.
      apply strip_nil in E. rewrite E. reflexivity. }
  destruct (forallb JsString.is_space (chars s)).
  - apply truthy_false, H. reflexivity.
  - apply truthy_true. intros E. apply H in E. discriminate.
Qed.

(** X13.  The search does not see the case of the query: two queries
    with the same lowercase form select the same records, and so a query
    selects what its lowercase form selects. *)
Theorem search_ignores_query_case (q1 q2 : string) (l : list Bookmark) :
  (JsString.toLowerCase q1 = JsString.toLowerCase q2 → searchFilter q1 l = searchFilter q2 l)
  ∧ searchFilter (JsString.toLowerCase q1) l = searchFilter q1 l.
Proof.
  assert (∀ a b, JsString.toLowerCase a = JsString.toLowerCase b →
                 searchFilter a l = searchFilter b l) as H.
  { intros a b E. unfold searchFilter. rewrite E, !trim_blank.
    replace (forallb JsString.is_space (chars a))
      with (forallb JsString.is_space (chars b)); [reflexivity|].
    apply (f_equal chars) in E. rewrite !chars_toLowerCase in E.
    apply (f_equal (map JsString.is_space)) in E. rewrite !map_map in E.
    assert (∀ cs, map (λ x, JsString.is_space (JsString.lower_char x)) cs
                  = map JsString.is_space cs) as Hsp
      by (intros cs; apply map_ext, is_space_lower_char).
    rewrite !Hsp in E.
    clear -E. revert E. generalize (chars a) as la, (chars b) as lb.
    induction la as [|x la IH]; intros [|y lb] E; simpl in E; try discriminate;
      [reflexivity|].
    injection E as Exy E. simpl. rewrite Exy, (IH lb E). reflexivity. }
  split; [apply H|]. apply H, toLowerCase_idempotent.
Qed.

Lemma search_ignores_query_case_witness :
  searchFilter "DevTools" [sampleBookmark] = searchFilter "dEVtOOLS" [sampleBookmark].
Proof.
  apply (proj1 (search_ignores_query_case "DevTools" "dEVtOOLS" [sampleBookmark])).
  reflexivity.
Defined.

(** ** The category list *)

Lemma Set_add_In (c x : string) (cats : list string) :
  In x (Set_add c cats) ↔ x = c ∨ In x cats.
Proof.
  unfold Set_add. destruct (existsb (String.eqb c) cats) eqn:E.
  - split; [tauto|]. intros [->|H]; [|exact H].
    apply existsb_exists in E as [y [Hy Hc]]. apply String.eqb_eq in Hc. congruence.
  - rewrite in_app_iff. simpl. intuition congruence.
Qed.

Lemma Set_add_NoDup (c : string) (cats : list string) :
  List.NoDup cats → List.NoDup (Set_add c cats).
Proof.
  intros Hnd. unfold Set_add. destruct (existsb (String.eqb c) cats) eqn:E; [exact Hnd|].
  apply NoDup_rev in Hnd. rewrite <- (rev_involutive (cats ++ [c])), rev_app_distr.
  apply NoDup_rev. simpl. constructor; [|exact Hnd].
  intros Hin. apply in_rev in Hin.
  assert (existsb (String.eqb c) cats = true) as E'; [|congruence].
  apply existsb_exists. exists c. split; [exact Hin | apply String.eqb_refl].
Qed.

Lemma Set_adds (xs cats : list string) :
  List.NoDup cats →
  List.NoDup (fold_left (λ s c, Set_add c s) xs cats)
  ∧ ∀ x, In x (fold_left (λ s c, Set_add c s) xs cats) ↔ In x xs ∨ In x cats.
Proof.
  revert cats. induction xs as [|c xs IH]; intros cats Hnd; simpl.
  - split; [exact Hnd | tauto].
  - destruct (IH (Set_add c cats) (Set_add_NoDup c cats Hnd)) as [H1 H2].
    split; [exact H1|]. intros x. rewrite H2, Set_add_In. intuition congruence.
Qed.

Lemma insert_by_sorted_general {A : Type} (cmp : A → A → Z) (x : A) (l : list A) :
  (∀ a b, 0 < cmp a b → cmp b a <= 0) →
  (∀ a b c, cmp a b <= 0 → cmp b c <= 0 → cmp a c <= 0) →
  StronglySorted (λ a b, cmp a b <= 0) l →
  StronglySorted (λ a b, cmp a b <= 0) (insert_by cmp x l).
Proof.
  intros Hanti Htrans. induction l as [|y l IH]; intros Hs; simpl.
  - constructor; constructor.
  - apply StronglySorted_inv in Hs as [Hl Hy].
    destruct (Z.ltb_spec 0 (cmp x y)) as [Hgt|Hle].
    + constructor; [apply IH, Hl|].
      eapply Permutation_Forall; [symmetry; apply insert_by_perm|].
      constructor; [apply Hanti, Hgt | exact Hy].
    + constructor; [constructor; assumption|].
      constructor; [exact Hle|].
      eapply Forall_impl; [exact Hy|]. simpl. intros z Hz. exact (Htrans x y z Hle Hz).
Qed.

Lemma defaultCompare_le (a b : string) : defaultCompare a b <= 0 ↔ String.le a b.
Proof.
  unfold defaultCompare, String.le, String.leb.
  destruct (String.compare a b); simpl; split; intros H; try lia; try exact I;
    try contradiction.
Qed.

Lemma sort_default_sorted (l : list string) :
  StronglySorted (λ a b, defaultCompare a b <= 0) (sort_by defaultCompare l).
Proof.
  induction l as [|x l IH]; simpl; [constructor|].
  apply insert_by_sorted_general; [| |exact IH].
  - intros a b H. unfold defaultCompare in *.
    rewrite (String.compare_antisym b a). destruct (String.compare a b); simpl; lia.
  - intros a b c. rewrite !defaultCompare_le. apply transitivity.
Qed.

(** X14.  The category list is [All], [Favorites] and then, each once
    and in strictly increasing order of their code units, exactly the
    categories of the stored records together with the nine predefined
    ones. *)
Theorem categories_list (bs : list Bookmark) :
  ∃ rest,
    categories bs = "All" :: "Favorites" :: rest
    ∧ StronglySorted (λ a b, String.compare a b = Lt) rest
    ∧ ∀ c, In c rest ↔ In c (map category bs) ∨ In c CATEGORY_ICONS_keys.
Proof.
  unfold categories. eexists. split; [reflexivity|].
  destruct (Set_adds (map category bs) [] (List.NoDup_nil _)) as [Hnd1 Hin1].
  fold (Set_of (map category bs)) in Hnd1, Hin1.
  destruct (Set_adds CATEGORY_ICONS_keys (Set_of (map category bs)) Hnd1) as [Hnd2 Hin2].
  set (cats := fold_left _ CATEGORY_ICONS_keys _) in *.
  split.
  - assert (List.NoDup (sort_by defaultCompare cats)) as Hnd.
    { eapply Permutation_NoDup; [symmetry; apply sort_by_perm | exact Hnd2]. }
    pose proof (sort_default_sorted cats) as Hs.
    induction Hs as [|x s Hs IH Hx]; constructor.
    + apply IH. apply List.NoDup_cons_iff in Hnd. tauto.
    + apply List.NoDup_cons_iff in Hnd as [Hnotin _].
      rewrite List.Forall_forall in *. intros y Hy. specialize (Hx y Hy).
      unfold defaultCompare in Hx. destruct (String.compare x y) eqn:E; try lia.
      * apply String.compare_eq_iff in E. subst y. contradiction.
      * reflexivity.
  - intros c. split.
    + intros H. eapply Permutation_in in H; [|apply sort_by_perm].
      apply Hin2 in H as [H|H]; [tauto|]. apply Hin1 in H. simpl in H. tauto.
    + intros H. eapply Permutation_in; [symmetry; apply sort_by_perm|].
      apply Hin2. rewrite Hin1. simpl. tauto.
Qed.

Example categories_ex :
  categories [sampleBookmark; sampleRecord "2" "https://b.com" 200;
              newBookmark "3" 300 (Form.mk "https://c.com" "C" EmptyString "Recipes"
                                     EmptyString EmptyString None None) false]
  = ["All"; "Favorites"; "Design"; "Dev"; "Entertainment"; "Learning"; "News";
     "Personal"; "Recipes"; "Social"; "Uncategorized"; "Work"].
Proof. reflexivity. Qed.

(** ** When the lookup is asked, and what a reply does *)

Section LookupProperties.

Variable hostname : string → option string.

Lemma lookupFailed_frame (v : string) (st : AppState Bookmark) :
  bookmarks (lookupFailed hostname v st) = bookmarks st
  ∧ editingId (lookupFailed hostname v st) = editingId st
  ∧ log (lookupFailed hostname v st) = log st ++ [ConsoleError "Metadata fetch failed"].
Proof. unfold lookupFailed. destruct (hostname v); repeat split. Qed.

Lemma lookupSucceeded_frame (v : string) (d : MicrolinkData) (st st' : AppState Bookmark) :
  lookupSucceeded hostname v d st = Return st' →
  bookmarks st' = bookmarks st ∧ editingId st' = editingId st ∧ log st' = log st.
Proof.
  unfold lookupSucceeded.
  destruct (JsString.truthy _); [|destruct (hostname v)]; intros [= <-]; repeat split.
Qed.

(** X15.  Leaving the URL field never changes the collection or the edit
    target.  It asks the lookup service, for the normalized URL, exactly
    when the form is creating, the URL is not empty and no record has it;
    in every other case nothing is asked and the draft stays as typed. *)
Theorem blur_asks_lookup (reply : LookupReply) (st st' : AppState Bookmark) :
  onBlurUrl hostname reply st = Return st' →
  let u := Form.url (formData st) in
  let asks := truthy_id (editingId st) = None ∧ u ≠ EmptyString
              ∧ ∀ b, In b (bookmarks st) → is_duplicate u (editingId st) b = false in
  bookmarks st' = bookmarks st
  ∧ editingId st' = editingId st
  ∧ (asks → ∃ rest, log st' = log st ++ Lookup (validUrl u) :: rest)
  ∧ (¬ asks → log st' = log st ∧ formData st' = formData st).
Proof.
  intros Hrun u asks. unfold onBlurUrl in Hrun.
  destruct (truthy_id (editingId st)) as [e|] eqn:Hed.
  { injection Hrun as <-. repeat split; try reflexivity.
    intros (H & _). discriminate. }
  unfold fetchMetadata in Hrun. fold u in Hrun.
  destruct (JsString.truthy u) eqn:Hu; simpl in Hrun.
  2:{ injection Hrun as <-. apply truthy_false in Hu. repeat split; try reflexivity.
      intros (_ & H & _). contradiction. }
  destruct (List.find (is_duplicate u (editingId st)) (bookmarks st)) as [dup|] eqn:Hdup.
  { injection Hrun as <-. apply find_some in Hdup as [Hin Hd].
    repeat split; try reflexivity.
    intros (_ & _ & H). rewrite (H dup Hin) in Hd. discriminate. }
  assert (asks) as Hasks.
  { split; [reflexivity|]. split; [apply truthy_true, Hu|].
    apply find_none_iff, Hdup. }
  set (st0 := emit (Lookup (validUrl u)) _) in Hrun.
  assert (bookmarks st0 = bookmarks st ∧ editingId st0 = editingId st
          ∧ log st0 = log st ++ [Lookup (validUrl u)]) as (B0 & E0 & L0)
    by (repeat split).
  assert (∀ s, bookmarks s = bookmarks st0 → editingId s = editingId st0 →
               (∃ rest, log s = log st0 ++ rest) →
               st' = setIsFetchingMeta false s →
               bookmarks st' = bookmarks st ∧ editingId st' = editingId st
               ∧ (asks → ∃ rest, log st' = log st ++ Lookup (validUrl u) :: rest)
               ∧ (¬ asks → log st' = log st ∧ formData st' = formData st)) as Hend.
  { intros s Hb He [rest Hl] ->. simpl. rewrite Hb, He, B0, E0.
    repeat split; try tauto.
    intros _. exists rest. rewrite Hl, L0, <- app_assoc. reflexivity. }
  destruct (lookupFailed_frame (validUrl u) st0) as (Bf & Ef & Lf).
  assert (∀ r, r = Return (setIsFetchingMeta false (lookupFailed hostname (validUrl u) st0)) →
               r = Return st' →
               bookmarks st' = bookmarks st ∧ editingId st' = editingId st
               ∧ (asks → ∃ rest, log st' = log st ++ Lookup (validUrl u) :: rest)
               ∧ (¬ asks → log st' = log st ∧ formData st' = formData st)) as Hfail.
  { intros r -> [= <-]. eapply Hend; [exact Bf | exact Ef | eexists; exact Lf | reflexivity]. }
  destruct reply as [|status [d|]]; try (eapply Hfail; [reflexivity | exact Hrun]).
  destruct (String.eqb status "success"); [|eapply Hfail; [reflexivity | exact Hrun]].
  destruct (lookupSucceeded hostname (validUrl u) d st0) as [s|] eqn:Hs; [|discriminate].
  injection Hrun as <-. apply lookupSucceeded_frame in Hs as (Bs & Es & Ls).
  eapply Hend; [exact Bs | exact Es | exists []; rewrite app_nil_r; exact Ls | reflexivity].
Qed.

(** X16.  A reply with status [success] gives the draft the normalized
    URL; as title the first non-empty of the reply's title, the typed
    title and the host name; as description the reply's, or else the typed
    one; the reply's image or none; the reply's logo or else the
    favicon-by-domain address; category, tags and notes stay.  No error is
    shown, nothing goes to the console.  Only when neither the reply nor
    the draft has a title and the host name cannot be read does the
    update throw. *)
Theorem fetchMetadata_success (u : string) (d : MicrolinkData) (st : AppState Bookmark) :
  u ≠ EmptyString →
  (∀ b, In b (bookmarks st) → is_duplicate u (editingId st) b = false) →
  let prev := formData st in
  let v := validUrl u in
  let known := JsString.or_else (or_empty (ml_title d)) (Form.title prev) in
  let filled t :=
    Form.mk v t
      (JsString.or_else (or_empty (ml_description d)) (Form.description prev))
      (Form.category prev) (Form.tags prev) (Form.notes prev)
      (or_null (ml_image_url d))
      (Some (JsString.or_else (or_empty (ml_logo_url d)) (faviconFor v))) in
  (∀ t, (known ≠ EmptyString ∧ t = known) ∨ (known = EmptyString ∧ hostname v = Some t) →
     ∃ st', fetchMetadata hostname u (Body "success" (Some d)) st = Return st'
            ∧ formData st' = filled t
            ∧ fetchError st' = EmptyString ∧ urlError st' = EmptyString
            ∧ isFetchingMeta st' = false
            ∧ log st' = log st ++ [Lookup v]
            ∧ bookmarks st' = bookmarks st)
  ∧ (known = EmptyString → hostname v = None →
     fetchMetadata hostname u (Body "success" (Some d)) st = Throw "TypeError").
Proof.
  intros Hu Hnodup prev v known filled.
  assert (fetchMetadata hostname u (Body "success" (Some d)) st
          = match lookupSucceeded hostname v d
                    (emit (Lookup v)
                       (setUrlError EmptyString
                          (setFetchError EmptyString (setIsFetchingMeta true st)))) with
            | Return st' => Return (setIsFetchingMeta false st')
            | Throw e => Throw e
            end) as ->.
  { unfold fetchMetadata. apply truthy_true in Hu. rewrite Hu. simpl.
    apply find_none_iff in Hnodup. rewrite Hnodup. reflexivity. }
  unfold lookupSucceeded.
  cbn [formData emit setUrlError setFetchError setIsFetchingMeta].
  fold prev. fold known.
  split.
  - intros t [[Hk ->] | [Hk Hh]].
    + apply truthy_true in Hk. rewrite Hk. eexists. split; [reflexivity|].
      repeat split.
    + rewrite Hk. simpl. rewrite Hh. eexists. split; [reflexivity|].
      repeat split.
  - intros Hk Hh. rewrite Hk. simpl. rewrite Hh. reflexivity.
Qed.

End LookupProperties.

Lemma blur_asks_lookup_witness :
  let st := withDraft None (sampleDraft "b.com" EmptyString) (initialState [sampleBookmark]) in
  ∃ st' rest,
    onBlurUrl sampleHostname Rejected st = Return st'
    ∧ log st' = log st ++ Lookup "https://b.com" :: rest.
Proof.
  intros st.
  destruct (onBlurUrl sampleHostname Rejected st) as [st'|] eqn:Hrun; [|discriminate].
  destruct (blur_asks_lookup sampleHostname Rejected st st' Hrun) as (_ & _ & Hask & _).
  destruct Hask as [rest Hrest].
  - split; [reflexivity|]. split; [discriminate|].
    simpl. intros b [<-|[]]. reflexivity.
  - exists st', rest. split; [reflexivity | exact Hrest].
Defined.

Lemma fetchMetadata_success_witness :
  let st := withDraft None (sampleDraft "b.com" "typed") (initialState [sampleBookmark]) in
  let d := mkMicrolink (Some "Fetched") None None None in
  ∃ st', fetchMetadata sampleHostname "b.com" (Body "success" (Some d)) st = Return st'
         ∧ Form.title (formData st') = "Fetched"
         ∧ Form.url (formData st') = "https://b.com".
Proof.
  intros st d.
  destruct (fetchMetadata_success sampleHostname "b.com" d st) as [Hok _].
  - discriminate.
  - simpl. intros b [<-|[]]. reflexivity.
  - destruct (Hok "Fetched") as (st' & Hrun & Hfd & _).
    + left. split; [discriminate | reflexivity].
    + exists st'. split; [exact Hrun|]. rewrite Hfd. split; reflexivity.
Defined.

(** ** Duplicates and the save button *)

(** X17.  A duplicate report, from the save or from the lookup guard,
    leaves the save button disabled, the collection and the draft as they
    were and asks nothing of the lookup service; any change of the URL
    field clears the report, and the button is then disabled only for an
    empty URL or a running lookup. *)
Theorem duplicate_disables_save (hostname : string → option string) (t1 t2 : Z)
    (u : string) (reply : LookupReply) (st : AppState Bookmark) :
  (∀ st', rejects_DuplicateURL st (handleSave t1 t2 st) → handleSave t1 t2 st = Return st' →
     saveDisabled st' = true ∧ bookmarks st' = bookmarks st ∧ formData st' = formData st)
  ∧ (u ≠ EmptyString →
     (∃ b, In b (bookmarks st) ∧ is_duplicate u (editingId st) b = true) →
     ∃ st', fetchMetadata hostname u reply st = Return st'
            ∧ urlError st' = "This URL is already saved."
            ∧ saveDisabled st' = true
            ∧ isFetchingMeta st' = false
            ∧ bookmarks st' = bookmarks st ∧ formData st' = formData st
            ∧ log st' = log st)
  ∧ (∀ v, urlError (onChangeUrl v st) = EmptyString
          ∧ saveDisabled (onChangeUrl v st) = negb (JsString.truthy v) || isFetchingMeta st).
Proof.
  split; [|split].
  - intros st' Hrej Hrun. unfold rejects_DuplicateURL in Hrej. rewrite Hrej in Hrun.
    injection Hrun as <-. unfold saveDisabled. simpl.
    rewrite orb_true_r. repeat split.
  - intros Hu Hdup. unfold fetchMetadata. apply truthy_true in Hu. rewrite Hu. simpl.
    apply find_some_iff in Hdup as [b Hb]. rewrite Hb.
    eexists. split; [reflexivity|]. unfold saveDisabled. simpl.
    rewrite orb_true_r. repeat split.
  - intros v. unfold saveDisabled, onChangeUrl. simpl.
    rewrite orb_false_r. split; reflexivity.
Qed.

Lemma duplicate_disables_save_witness :
  let st := withDraft None (sampleDraft "https://a.com" "A") (initialState [sampleBookmark]) in
  ∃ st', fetchMetadata sampleHostname "https://a.com" Rejected st = Return st'
         ∧ saveDisabled st' = true
         ∧ log st' = log st.
Proof.
  intros st.
  destruct (proj1 (proj2 (duplicate_disables_save sampleHostname 0 0 "https://a.com"
                            Rejected st)))
    as (st' & Hrun & _ & Hdis & _ & _ & _ & Hlog).
  - discriminate.
  - exists sampleBookmark. split; [left|]; reflexivity.
  - exists st'. repeat split; assumption.
Defined.

(** ** Ids from the clock *)

Lemma of_Z_inj (a b : Z) : JsString.of_Z a = JsString.of_Z b → a = b.
Proof.
  unfold JsString.of_Z. intros H.
  assert (∀ n, DecimalString.NilZero.int_of_string
                 (DecimalString.NilZero.string_of_int (Z.to_int n)) = Some (Z.to_int n)) as Hisi.
  { intros n. apply DecimalString.NilZero.isi; destruct n; simpl; try discriminate.
    intros [= E]. exact (DecimalPos.Unsigned.to_uint_nonnil _ E).
    intros [= E]. exact (DecimalPos.Unsigned.to_uint_nonnil _ E). }
  pose proof (Hisi a) as Ha. rewrite H, Hisi in Ha. injection Ha as Ha.
  rewrite <- (DecimalZ.of_to a), <- (DecimalZ.of_to b), Ha. reflexivity.
Qed.

Lemma exec_add_ids (a : Addition) (st : AppState Bookmark) (i : string) :
  In i (map id (bookmarks (exec (addOp a) st))) →
  i = JsString.of_Z (snd (fst a)) ∨ In i (map id (bookmarks st)).
Proof.
  destruct a as [[d t1] t2]. cbn [addOp exec fst snd].
  set (st1 := withDraft None d st).
  assert (bookmarks st1 = bookmarks st) as Hbs by reflexivity.
  destruct (String.eqb_spec (Form.url (formData st1)) EmptyString) as [Hu|Hu].
  { unfold handleSave. rewrite Hu. simpl. tauto. }
  rewrite (handleSave_unfold t1 t2 st1 Hu).
  destruct (List.find _ (bookmarks st1)); [simpl; tauto|].
  cbn [editingId st1 withDraft setFormData setEditingId truthy_id bookmarks closeModal
       setUrlError setFetchError setIsModalOpen setBookmarks map id newBookmark].
  intros [<-|H]; [left; reflexivity | right; exact H].
Qed.

(** X18.  Adds that read pairwise different clock values for their ids,
    none of them the decimal string of an id already stored, keep the ids
    pairwise distinct, and the urls too, whether each add is accepted or
    refused. *)
Theorem adds_with_distinct_clock (adds : list Addition) (st : AppState Bookmark) :
  unique_ids (bookmarks st) → unique_urls (bookmarks st) →
  List.NoDup (map (λ a, snd (fst a)) adds) →
  (∀ a, In a adds → ¬ In (JsString.of_Z (snd (fst a))) (map id (bookmarks st))) →
  unique_ids (bookmarks (run (map addOp adds) st))
  ∧ unique_urls (bookmarks (run (map addOp adds) st)).
Proof.
  revert st. induction adds as [|a adds IH]; intros st Hids Hurls Hclock Hfresh; [tauto|].
  apply List.NoDup_cons_iff in Hclock as [Hnotin Hclock].
  change (run (map addOp (a :: adds)) st) with (run (map addOp adds) (exec (addOp a) st)).
  destruct (exec_preserves_unique (addOp a) st Hids Hurls) as [Hids' Hurls'].
  { destruct a as [[d t1] t2]. simpl. apply (Hfresh (d, t1, t2)). left. reflexivity. }
  apply IH; try assumption.
  intros a' Ha' Hin. apply exec_add_ids in Hin as [E|Hin].
  - apply of_Z_inj in E. apply Hnotin. rewrite <- E.
    apply (in_map (λ a, snd (fst a))), Ha'.
  - apply (Hfresh a'); [right; exact Ha' | exact Hin].
Qed.

Lemma adds_with_distinct_clock_witness :
  let adds : list Addition :=
    [(sampleDraft "https://b.com" "B", 200, 200); (sampleDraft "https://a.com" "A", 201, 201);
     (sampleDraft "https://c.com" "C", 202, 202)] in
  unique_ids (bookmarks (run (map addOp adds) (initialState [sampleBookmark])))
  ∧ unique_urls (bookmarks (run (map addOp adds) (initialState [sampleBookmark]))).
Proof.
  intros adds. apply adds_with_distinct_clock.
  - repeat constructor; simpl; tauto.
  - repeat constructor; simpl; tauto.
  - repeat constructor; simpl; intuition discriminate.
  - intros a [<-|[<-|[<-|[]]]]; simpl; intuition discriminate.
Defined.

(** X19.  Deleting the record an accepted add has just created, by the id
    it took from the clock, gives back the collection as it was before
    the add, provided no stored record had that id. *)
Theorem add_then_delete (a : Addition) (st : AppState Bookmark) :
  addedUrl a ≠ EmptyString →
  (∀ b, In b (bookmarks st) → url b ≠ addedUrl a) →
  ¬ In (id (added a)) (map id (bookmarks st)) →
  bookmarks (handleDelete (id (added a)) true (exec (addOp a) st)) = bookmarks st.
Proof.
  intros Hu Hnew Hfresh.
  cbn [handleDelete bookmarks setBookmarks]. rewrite (exec_add a st Hu Hnew).
  cbn [List.filter]. rewrite String.eqb_refl. cbn [negb].
  pose proof (handleDelete_absent (id (added a)) (bookmarks st) Hfresh) as H.
  exact H.
Qed.

Lemma add_then_delete_witness :
  let a : Addition := (sampleDraft "https://b.com" "B", 200, 201) in
  bookmarks (handleDelete "200" true (exec (addOp a) (initialState [sampleBookmark])))
  = [sampleBookmark].
Proof.
  intros a. apply (add_then_delete a (initialState [sampleBookmark])).
  - discriminate.
  - simpl. intros b [<-|[]]. discriminate.
  - simpl. intuition discriminate.
Defined.

Lemma toggleFavorite_frame_witness :
  let st := initialState [sampleBookmark; sampleRecord "2" "https://b.com" 200] in
  map isFavorite (bookmarks (toggleFavorite "2" st)) = [false; true]
  ∧ toggleFavorite "9" st = st.
Proof.
  intros st.
  destruct (toggleFavorite_frame "9" st) as (_ & _ & _ & _ & _ & Habsent & _).
  split; [reflexivity|]. apply Habsent. simpl. intuition discriminate.
Defined.

Lemma view_shows_witness :
  let bs := [sampleBookmark; sampleRecord "2" "https://b.com" 200] in
  Permutation (view (λ _ _, 0) bs "All" "   " "date-desc") bs.
Proof.
  intros bs.
  apply (proj2 (proj2 (proj2 (view_shows (λ _ _, 0) bs "All" "   " "date-desc"))));
    reflexivity.
Defined.
